(** * RFM customer segmentation and sales forecasting

    A shallow embedding of the two analytical modules of the SQL Analyst Pack,

      - [05_python_integration/04_business_analytics_examples/01_customer_segmentation.py]
        (class [CustomerSegmentation]) and
      - [05_python_integration/04_business_analytics_examples/02_sales_forecasting.py]
        (class [SalesForecasting]),

    together with the properties their specification states about them and
    further properties of the two pipelines, read off their code.

    Conventions of the embedding.

    - A data frame is the list of its rows, in row order.
    - The RFM metric columns are two-decimal numbers ([.round(2)] in
      [calculate_rfm_metrics]); they are carried as integers counting
      hundredths.  Quantile edges are fifths of such numbers and are carried
      multiplied by five, so that binning is exact integer arithmetic.
    - A sales figure is a [float64].  Its rounding is idealised away (finite
      values are exact rationals) but its three special values are kept, so
      that a division by zero yields an infinity or a NaN as numpy does.
    - A Python exception is a value of [exn] returned in the error monad
      [result]; the progress lines a method prints are recorded in a log. *)

From Stdlib Require Import String ZArith QArith Qminmax Qfield Bool Lia Lqa List.
From Stdlib Require Import Sorting.Permutation Sorting.Sorted Sorting.Mergesort.
From Stdlib Require Import Orders.
Import ListNotations.

Set Implicit Arguments.

(* ===================================================================== *)
(** * Exceptions                                                           *)
(* ===================================================================== *)

(** The exceptions the modelled pandas calls raise. *)
Inductive exn : Type :=
| BinEdgesNotUnique     (* pd.qcut: "Bin edges must be unique" *)
| CannotConvertNaN      (* astype(int) on a missing category *)
| EmptyDateRange        (* pd.date_range(start=NaT, end=NaT) *)
| DuplicateLabels       (* reindex on an axis with duplicate labels *)
| InputsEmpty           (* stats.linregress: "Inputs must not be empty." *)
| IdenticalX.           (* stats.linregress: "... all x values are identical" *)

Inductive result (A : Type) : Type :=
| Ok (a : A)
| Raise (e : exn).

Arguments Ok {A} a.
Arguments Raise {A} e.

Definition bind {A B : Type} (c : result A) (k : A -> result B) : result B :=
  match c with
  | Ok a => k a
  | Raise e => Raise e
  end.

Notation "x <- c ;; k" := (bind c (fun x => k))
  (at level 61, c at next level, right associativity).

Fixpoint mapM {A B : Type} (f : A -> result B) (l : list A) : result (list B) :=
  match l with
  | [] => Ok []
  | a :: l' => b <- f a ;; bs <- mapM f l' ;; Ok (b :: bs)
  end.

(* ===================================================================== *)
(** * Columns: sorting, group keys, duplicates                             *)
(* ===================================================================== *)

Module ZOrder <: TotalLeBool.

Definition t := Z.

Definition leb := Z.leb.

Lemma leb_total : forall a b, leb a b = true \/ leb b a = true.
Proof. intros a b. unfold leb. rewrite !Z.leb_le. lia. Qed.

End ZOrder.

Module ZSort := Sort ZOrder.

Fixpoint dedup (l : list Z) : list Z :=
  match l with
  | [] => []
  | x :: t => if existsb (Z.eqb x) t then dedup t else x :: dedup t
  end.

(** The keys of a [groupby], each once, in increasing order (pandas sorts
    group keys by default). *)
Definition sorted_keys (col : list Z) : list Z := ZSort.sort (dedup col).

(** Whether some value occurs twice: the test behind "Bin edges must be
    unique" and behind "cannot reindex on an axis with duplicate labels". *)
Fixpoint has_duplicates (l : list Z) : bool :=
  match l with
  | [] => false
  | x :: t => existsb (Z.eqb x) t || has_duplicates t
  end.

(* ===================================================================== *)
(** * Customer segmentation                                                *)
(* ===================================================================== *)

Module RFM.

Local Open Scope Z_scope.

(** ** The segment classifier: [assign_segment] *)

Inductive Segment : Type :=
| Champions
| LoyalCustomers
| PotentialLoyalists
| NewCustomers
| Promising
| NeedAttention
| AboutToSleep
| AtRisk
| CannotLoseThem
| Hibernating.

(** The string each branch of [assign_segment] returns. *)
Definition segment_name (s : Segment) : string :=
  match s with
  | Champions => "Champions"
  | LoyalCustomers => "Loyal Customers"
  | PotentialLoyalists => "Potential Loyalists"
  | NewCustomers => "New Customers"
  | Promising => "Promising"
  | NeedAttention => "Need Attention"
  | AboutToSleep => "About to Sleep"
  | AtRisk => "At Risk"
  | CannotLoseThem => "Cannot Lose Them"
  | Hibernating => "Hibernating"
  end.

Definition Segment_eq_dec (a b : Segment) : {a = b} + {a <> b}.
Proof. decide equality. Defined.

(** The if/elif chain of [assign_segment], on [r, f, m = row['R_Score'],
    row['F_Score'], row['M_Score']]. *)
Definition assign_segment (r f m : Z) : Segment :=
  if (r >=? 4) && (f >=? 4) && (m >=? 4) then Champions
  else if (r >=? 3) && (f >=? 4) then LoyalCustomers
  else if (r >=? 4) && (f >=? 2) && (f <=? 3) then PotentialLoyalists
  else if (r >=? 4) && (f <=? 2) then NewCustomers
  else if (r >=? 3) && (f >=? 2) && (f <=? 3) then Promising
  else if (r >=? 2) && (r <=? 3) then NeedAttention
  else if (r >=? 2) && (f >=? 2) then AboutToSleep
  else if (f >=? 4) && (m >=? 4) then AtRisk
  else if m >=? 4 then CannotLoseThem
  else Hibernating.

(** ** The cascade as the specification words it

    Section 4.3 of the specification lists ten rules; the first nine carry a
    condition, the tenth is the catch-all.  [cascade] is that table and
    [first_match] its top-to-bottom evaluation. *)

Definition rule : Type := ((Z -> Z -> Z -> bool) * Segment)%type.

Definition cascade : list rule :=
  [ (fun r f m => (4 <=? r) && (4 <=? f) && (4 <=? m), Champions);
    (fun r f m => (3 <=? r) && (4 <=? f),              LoyalCustomers);
    (fun r f m => (4 <=? r) && (2 <=? f) && (f <=? 3), PotentialLoyalists);
    (fun r f m => (4 <=? r) && (f <=? 2),              NewCustomers);
    (fun r f m => (3 <=? r) && (2 <=? f) && (f <=? 3), Promising);
    (fun r f m => (2 <=? r) && (r <=? 3),              NeedAttention);
    (fun r f m => (2 <=? r) && (2 <=? f),              AboutToSleep);
    (fun r f m => (4 <=? f) && (4 <=? m),              AtRisk);
    (fun r f m => (4 <=? m),                           CannotLoseThem) ].

Fixpoint first_match (rules : list rule) (otherwise : Segment) (r f m : Z)
  : Segment :=
  match rules with
  | [] => otherwise
  | (cond, seg) :: rest =>
      if cond r f m then seg else first_match rest otherwise r f m
  end.

Definition spec_classifier : Z -> Z -> Z -> Segment :=
  first_match cascade Hibernating.

(** The condition of rule [k] (1-based) of the cascade; the catch-all and
    anything past it is always true. *)
Definition rule_cond (k : nat) (r f m : Z) : bool :=
  match nth_error cascade (pred k) with
  | Some (cond, _) => cond r f m
  | None => true
  end.

(** The segment rule [k] returns. *)
Definition rule_segment (k : nat) : Segment :=
  match nth_error cascade (pred k) with
  | Some (_, seg) => seg
  | None => Hibernating
  end.

(** The position (0-based) of the first rule whose condition holds, the
    length of the table if none does. *)
Fixpoint first_index (rules : list rule) (r f m : Z) : nat :=
  match rules with
  | [] => 0
  | (cond, _) :: rest =>
      if cond r f m then 0%nat else S (first_index rest r f m)
  end.

Definition in_score_range (x : Z) : Prop := 1 <= x <= 5.

(** ** pandas primitives used by the scorer *)

(** [Series.quantile(k/5)] with linear interpolation, on the sorted column
    [s], multiplied by five: the position is [k/5 * (n-1)], whose integer
    part [i] and fifths [g] weigh [s[i]] and [s[i+1]].  Whenever [i+1] falls
    outside the column, [g] is zero. *)
Definition quantile5 (s : list Z) (k : Z) : Z :=
  let pos := k * (Z.of_nat (length s) - 1) in
  let i := Z.to_nat (pos / 5) in
  let g := pos mod 5 in
  nth i s 0 * (5 - g) + nth (S i) s 0 * g.

(** [np.linspace(0, 1, 6)] gives the six quantiles [0, 1/5, ..., 1]. *)
Definition quantile_edges (s : list Z) : list Z :=
  map (quantile5 s) [0; 1; 2; 3; 4; 5].

(** [bins.searchsorted(v, side='left')] on increasing [bins]: the first
    index whose edge is not below [v]. *)
Fixpoint searchsorted_left (bins : list Z) (v : Z) : nat :=
  match bins with
  | [] => 0
  | b :: bs => if b <? v then S (searchsorted_left bs v) else 0
  end.

(** [_bins_to_cuts] with [right=True, include_lowest=True]: the interval
    number of [v], the lowest edge counted in the first interval. *)
Definition bin_id (bins : list Z) (v : Z) : nat :=
  if v =? hd 0 bins then 1%nat else searchsorted_left bins v.

(** The label of [v]; a value outside all intervals is missing. *)
Definition bin_label (bins labels : list Z) (v : Z) : option Z :=
  let id := bin_id bins v in
  if (id =? 0)%nat || (id =? length bins)%nat then None
  else nth_error labels (id - 1).

(** [pd.qcut(x, 5, labels=labels)].  The edges are the quintiles of [x]
    itself; duplicated edges raise (the default [duplicates='raise']), and
    so does an empty column, all of whose quantiles are NaN.  Edges are
    scaled by five, hence so is the value looked up. *)
Definition qcut (x : list Z) (labels : list Z) : result (list (option Z)) :=
  match ZSort.sort x with
  | [] => Raise BinEdgesNotUnique
  | s =>
      let bins := quantile_edges s in
      if has_duplicates bins then Raise BinEdgesNotUnique
      else Ok (map (fun v => bin_label bins labels (5 * v)) x)
  end.

(** [.astype(int)] on the categorical column [qcut] returns. *)
Definition astype_int (col : list (option Z)) : result (list Z) :=
  mapM (fun c => match c with Some l => Ok l | None => Raise CannotConvertNaN end)
       col.

Definition count_lt (v : Z) (l : list Z) : nat :=
  length (filter (fun y => y <? v) l).

Definition count_eq (v : Z) (l : list Z) : nat :=
  length (filter (Z.eqb v) l).

(** [Series.rank(method='first')]: one plus the number of smaller values,
    equal values ranked in the order they appear in the column. *)
Fixpoint rank_from (before rest all : list Z) : list Z :=
  match rest with
  | [] => []
  | v :: rest' =>
      Z.of_nat (1 + count_lt v all + count_eq v before)
      :: rank_from (v :: before) rest' all
  end.

Definition rank_first (x : list Z) : list Z := rank_from [] x x.

(** ** Data frames of the segmentation *)

(** A row of [extract_customer_data]'s frame.  [order_total] is a currency
    amount and [days_since_order] is taken at the two decimals the
    aggregate is rounded to (rounding is monotone, so it commutes with the
    minimum); both count hundredths. *)
Record Transaction : Type := {
  customer_id : Z;
  days_since_order : Z;
  order_total : Z
}.

(** A row of the RFM frame, indexed by customer; [Recency] and [Monetary] in
    hundredths, [Frequency] a count. *)
Record RFMRow : Type := {
  rfm_customer : Z;
  Recency : Z;
  Frequency : Z;
  Monetary : Z
}.

Record ScoredRow : Type := {
  scored_rfm : RFMRow;
  R_Score : Z;
  F_Score : Z;
  M_Score : Z
}.

Record SegmentRow : Type := {
  seg_scored : ScoredRow;
  Segment_of : Segment
}.

(** ** [calculate_rfm_metrics] *)

(** The group keys of [df.groupby('customer_id')], sorted as pandas does. *)
Definition group_keys (df : list Transaction) : list Z :=
  sorted_keys (map customer_id df).

Definition min_of (l : list Z) : Z :=
  match l with
  | [] => 0
  | x :: t => fold_left Z.min t x
  end.

Definition sum_of (l : list Z) : Z := fold_left Z.add l 0.

(** [groupby('customer_id').agg({'days_since_order': 'min', 'order_date':
    'count', 'order_total': 'sum'})], one row per customer present. *)
Definition calculate_rfm_metrics (df : list Transaction) : list RFMRow :=
  map (fun c =>
         let g := filter (fun t => customer_id t =? c) df in
         {| rfm_customer := c;
            Recency := min_of (map days_since_order g);
            Frequency := Z.of_nat (length g);
            Monetary := sum_of (map order_total g) |})
      (group_keys df).

(** ** [create_rfm_scores] *)


Definition score_frequency (col : list Z) : result (list Z) :=
  c <- qcut (rank_first col) [1; 2; 3; 4; 5] ;; astype_int c.


Fixpoint zip_scores (rows : list RFMRow) (rs fs ms : list Z) : list ScoredRow :=
  match rows, rs, fs, ms with
  | row :: rows', r :: rs', f :: fs', m :: ms' =>
      {| scored_rfm := row; R_Score := r; F_Score := f; M_Score := m |}
      :: zip_scores rows' rs' fs' ms'
  | _, _, _, _ => []
  end.

(** The three [pd.qcut] calls run first, the three [astype(int)] after. *)
Definition create_rfm_scores (rfm_df : list RFMRow) : result (list ScoredRow) :=
  rc <- qcut (map Recency rfm_df) [5; 4; 3; 2; 1] ;;
  fc <- qcut (rank_first (map Frequency rfm_df)) [1; 2; 3; 4; 5] ;;
  mc <- qcut (map Monetary rfm_df) [1; 2; 3; 4; 5] ;;
  rs <- astype_int rc ;;
  fs <- astype_int fc ;;
  ms <- astype_int mc ;;
  Ok (zip_scores rfm_df rs fs ms).

(** ** [create_customer_segments] *)

Definition create_customer_segments (scores : list ScoredRow) : list SegmentRow :=
  map (fun s => {| seg_scored := s;
                   Segment_of := assign_segment (R_Score s) (F_Score s) (M_Score s) |})
      scores.

(** ** [run_complete_analysis]

    The methods print their progress.  Of the lines a method prints the log
    keeps the one that opens the step and the one that closes it. *)

Inductive line : Type :=
| CalculatingRFMMetrics
| RFMCalculatedFor (customers : nat)
| CreatingRFMScores
| RFMScoresCreated
| CreatingCustomerSegments
| CustomerSegmentsCreated.

(** A method run: it extends the printed log and returns or raises. *)
Definition io (A : Type) : Type := list line -> list line * result A.

Definition ret {A : Type} (a : A) : io A := fun log => (log, Ok a).

Definition print (l : line) : io unit := fun log => (log ++ [l], Ok tt).

Definition lift {A : Type} (c : result A) : io A := fun log => (log, c).

Definition io_bind {A B : Type} (c : io A) (k : A -> io B) : io B :=
  fun log =>
    match c log with
    | (log', Ok a) => k a log'
    | (log', Raise e) => (log', Raise e)
    end.

Notation "x <~ c ;; k" := (io_bind c (fun x => k))
  (at level 61, c at next level, right associativity).
Notation "c ;;; k" := (io_bind c (fun _ => k))
  (at level 61, right associativity).

Definition calculate_rfm_metrics_io (df : list Transaction) : io (list RFMRow) :=
  print CalculatingRFMMetrics ;;;
  let rfm := calculate_rfm_metrics df in
  print (RFMCalculatedFor (length rfm)) ;;;
  ret rfm.

Definition create_rfm_scores_io (rfm_df : list RFMRow) : io (list ScoredRow) :=
  print CreatingRFMScores ;;;
  rfm_scores <~ lift (create_rfm_scores rfm_df) ;;
  print RFMScoresCreated ;;;
  ret rfm_scores.

Definition create_customer_segments_io (scores : list ScoredRow)
  : io (list SegmentRow) :=
  print CreatingCustomerSegments ;;;
  let segments := create_customer_segments scores in
  print CustomerSegmentsCreated ;;;
  ret segments.

(** Steps 2 to 4 of [run_complete_analysis], on the frame step 1 extracted.
    Steps 5 to 7 (statistics, plots, recommendations) only read the
    segments and come after every step modelled here. *)
Definition run_complete_analysis (customer_data : list Transaction)
  : io (list SegmentRow) :=
  rfm_metrics <~ calculate_rfm_metrics_io customer_data ;;
  rfm_scores <~ create_rfm_scores_io rfm_metrics ;;
  create_customer_segments_io rfm_scores.

(** The specification's reading of an empty transaction set: the
    aggregator raises, and the run never prints the line that opens the
    scoring step. *)
Definition aggregator_rejects_empty_input : Prop :=
  forall log,
    (exists e, snd (calculate_rfm_metrics_io [] log) = Raise e) /\
    ~ In CreatingRFMScores (fst (run_complete_analysis [] log)).

(** ** Vocabulary of the quantile properties *)



(** The scorer as the specification words it: each of the three metrics is
    binned over its stable rank order, ties broken by row order. *)
Definition stable_rank_scores (rfm_df : list RFMRow) : result (list ScoredRow) :=
  rc <- qcut (rank_first (map Recency rfm_df)) [5; 4; 3; 2; 1] ;;
  fc <- qcut (rank_first (map Frequency rfm_df)) [1; 2; 3; 4; 5] ;;
  mc <- qcut (rank_first (map Monetary rfm_df)) [1; 2; 3; 4; 5] ;;
  rs <- astype_int rc ;;
  fs <- astype_int fc ;;
  ms <- astype_int mc ;;
  Ok (zip_scores rfm_df rs fs ms).


(** Five customers who all ordered last on the same day. *)
Definition same_day_cohort : list RFMRow :=
  map (fun i => {| rfm_customer := i; Recency := 1250;
                   Frequency := i; Monetary := 1000 * i |})
      [1; 2; 3; 4; 5].

(** Ten customers, the second and third having spent the same amount. *)
Definition tied_spend_cohort : list RFMRow :=
  map (fun '(i, m) => {| rfm_customer := i; Recency := 100 * i;
                         Frequency := i; Monetary := 100 * m |})
      [(1, 1); (2, 2); (3, 2); (4, 3); (5, 4); (6, 5); (7, 6); (8, 7); (9, 8); (10, 9)].

End RFM.


(* ===================================================================== *)
(** * Sales forecasting                                                    *)
(* ===================================================================== *)

Module Forecast.

(** ** float64 values

    Finite values are exact rationals; the infinities and NaN follow
    IEEE 754 as numpy applies it (warnings are silenced by the module, no
    operation raises). *)

Inductive float : Type :=
| Fin (q : Q)
| PInf
| NInf
| NaN.

Definition Qltb (a b : Q) : bool := negb (Qle_bool b a).

Definition fneg (a : float) : float :=
  match a with
  | Fin q => Fin (- q)
  | PInf => NInf
  | NInf => PInf
  | NaN => NaN
  end.

Definition fadd (a b : float) : float :=
  match a, b with
  | NaN, _ | _, NaN => NaN
  | Fin p, Fin q => Fin (p + q)
  | PInf, NInf | NInf, PInf => NaN
  | PInf, _ | _, PInf => PInf
  | NInf, _ | _, NInf => NInf
  end.

Definition fsub (a b : float) : float := fadd a (fneg b).

(** An infinity times [q]: its sign follows [q], and zero gives NaN. *)
Definition inf_times (positive : bool) (q : Q) : float :=
  if Qeq_bool q 0 then NaN
  else if Bool.eqb positive (Qltb 0 q) then PInf else NInf.

Definition fmul (a b : float) : float :=
  match a, b with
  | NaN, _ | _, NaN => NaN
  | Fin p, Fin q => Fin (p * q)
  | PInf, Fin q | Fin q, PInf => inf_times true q
  | NInf, Fin q | Fin q, NInf => inf_times false q
  | PInf, PInf | NInf, NInf => PInf
  | PInf, NInf | NInf, PInf => NaN
  end.

(** Division; a zero divisor gives an infinity of the dividend's sign, or
    NaN for [0/0]. *)
Definition fdiv (a b : float) : float :=
  match a, b with
  | NaN, _ | _, NaN => NaN
  | Fin p, Fin q =>
      if Qeq_bool q 0 then
        if Qeq_bool p 0 then NaN else if Qltb 0 p then PInf else NInf
      else Fin (p / q)
  | Fin _, PInf | Fin _, NInf => Fin 0
  | PInf, Fin q => if Qltb q 0 then NInf else PInf
  | NInf, Fin q => if Qltb q 0 then PInf else NInf
  | PInf, PInf | PInf, NInf | NInf, PInf | NInf, NInf => NaN
  end.

(** [a > b] and [a < b]: false as soon as a NaN is involved. *)
Definition fgtb (a b : float) : bool :=
  match a, b with
  | NaN, _ | _, NaN => false
  | Fin p, Fin q => Qltb q p
  | PInf, Fin _ | PInf, NInf | Fin _, NInf => true
  | _, _ => false
  end.

Definition fltb (a b : float) : bool := fgtb b a.

(** [np.maximum]: NaN if either argument is. *)
Definition fmaximum (a b : float) : float :=
  match a, b with
  | NaN, _ | _, NaN => NaN
  | _, _ => if fgtb b a then b else a
  end.

Definition Qsum (l : list Q) : Q := fold_right Qplus 0 l.

Definition Qlen (l : list Q) : Q := inject_Z (Z.of_nat (length l)).

(** The mean of a non-empty column. *)
Definition Qmean (l : list Q) : Q := Qsum l / Qlen l.

(** [Series.mean()]: NaN on an empty column. *)
Definition mean (l : list Q) : float :=
  match l with
  | [] => NaN
  | _ => Fin (Qmean l)
  end.

(** ** Calendar

    A date is its day number, 0 being 1970-01-01 (a Thursday). *)

Local Open Scope Z_scope.

(** [index.dayofweek], [0] = Monday. *)
Definition dayofweek (d : Z) : Z := (d + 3) mod 7.

(** [index.month], by the civil-calendar computation on the 400-year era
    that starts on 0000-03-01. *)
Definition month_of (d : Z) : Z :=
  let z := d + 719468 in
  let era := z / 146097 in
  let doe := z - era * 146097 in
  let yoe := (doe - doe / 1460 + doe / 36524 - doe / 146096) / 365 in
  let doy := doe - (365 * yoe + yoe / 4 - yoe / 100) in
  let mp := (5 * doy + 2) / 153 in
  if mp <? 10 then mp + 3 else mp - 9.

(** ** Data frames of the forecast *)

(** A row of [extract_sales_data]'s frame. *)
Record SalesRow : Type := {
  date : Z;
  daily_sales : Q;
  order_count : Q;
  avg_order_value : Q
}.

(** A row of the prepared frame: the date index, the three columns of the
    input and the calendar columns that later steps read.  The other
    feature columns ([year], [day_of_year], [week_of_year], the month
    flags, the lags, moving averages and growth rates) are derived from
    these and read by no step below. *)
Record TSRow : Type := {
  ts_date : Z;
  ts_sales : Q;
  ts_order_count : Q;
  ts_avg_order_value : Q;
  month : Z;
  day_of_week : Z;
  is_weekend : bool
}.

Definition ts_row (d : Z) (sales orders avg : Q) : TSRow :=
  let dow := dayofweek d in
  {| ts_date := d; ts_sales := sales; ts_order_count := orders;
     ts_avg_order_value := avg;
     month := month_of d; day_of_week := dow;
     is_weekend := (dow =? 5) || (dow =? 6) |}.

(** The input columns of a prepared row. *)
Definition core (r : TSRow) : SalesRow :=
  {| date := ts_date r; daily_sales := ts_sales r;
     order_count := ts_order_count r;
     avg_order_value := ts_avg_order_value r |}.

(** ** [prepare_time_series] *)

Definition min_date (l : list Z) : option Z :=
  match l with
  | [] => None
  | x :: t => Some (fold_left Z.min t x)
  end.

Definition max_date (l : list Z) : option Z :=
  match l with
  | [] => None
  | x :: t => Some (fold_left Z.max t x)
  end.

(** [pd.date_range(start, end, freq='D')]. *)
Definition date_range (start stop : Z) : list Z :=
  map (fun i => start + Z.of_nat i) (seq 0 (Z.to_nat (stop - start + 1))).

(** [ts_df.reindex(full_date_range, fill_value=0)] on one date. *)
Definition reindex_at (df : list SalesRow) (d : Z) : TSRow :=
  match find (fun r => date r =? d) df with
  | Some r => ts_row d (daily_sales r) (order_count r) (avg_order_value r)
  | None => ts_row d 0 0 0
  end.

Definition prepare_time_series (df : list SalesRow) : result (list TSRow) :=
  let index := map date df in
  match min_date index, max_date index with
  | Some lo, Some hi =>
      if has_duplicates index then Raise DuplicateLabels
      else Ok (map (reindex_at df) (date_range lo hi))
  | _, _ => Raise EmptyDateRange
  end.

(** ** [stats.linregress]

    Of the five values returned, the slope and the intercept; the
    correlation, p-value and standard error are read by no forecast. *)

Local Close Scope Z_scope.
Local Open Scope Q_scope.

(** [np.arange(a, a + n)]. *)
Definition arange (a n : nat) : list Q :=
  map (fun i => inject_Z (Z.of_nat i)) (seq a n).

(** [np.amax] and [np.amin] of a non-empty array. *)
Definition amax (l : list Q) : Q :=
  match l with
  | [] => 0
  | x :: t => fold_left Qmax t x
  end.

Definition amin (l : list Q) : Q :=
  match l with
  | [] => 0
  | x :: t => fold_left Qmin t x
  end.

Fixpoint zip_with (f : Q -> Q -> Q) (a b : list Q) : list Q :=
  match a, b with
  | x :: a', y :: b' => f x y :: zip_with f a' b'
  | _, _ => []
  end.

Definition linregress (x y : list Q) : result (float * float) :=
  match x, y with
  | [], _ | _, [] => Raise InputsEmpty
  | _, _ =>
      if Qeq_bool (amax x) (amin x) && (1 <? length x)%nat then Raise IdenticalX
      else
        let xmean := Qmean x in
        let ymean := Qmean y in
        (* np.cov(x, y, bias=1) *)
        let ssxm := Qmean (map (fun xi => (xi - xmean) * (xi - xmean)) x) in
        let ssxym := Qmean (zip_with (fun xi yi => (xi - xmean) * (yi - ymean)) x y) in
        let slope := fdiv (Fin ssxym) (Fin ssxm) in
        let intercept := fsub (Fin ymean) (fmul slope (Fin xmean)) in
        Ok (slope, intercept)
  end.

(** ** [analyze_trends] *)

(** [Series.tail(n)] and [Series.iloc[-a:-b]] for [b <= a]. *)
Definition tail {A : Type} (n : nat) (l : list A) : list A :=
  skipn (length l - n) l.

Definition iloc_neg {A : Type} (a b : nat) (l : list A) : list A :=
  let start := (length l - a)%nat in
  let stop := (length l - b)%nat in
  firstn (stop - start) (skipn start l).

(** [ts_df.groupby(key)['daily_sales'].mean()]: a series indexed by the
    keys present. *)
Definition group_means (key : TSRow -> Z) (ts : list TSRow) : list (Z * float) :=
  map (fun k => (k, mean (map ts_sales (filter (fun r => (key r =? k)%Z) ts))))
      (sorted_keys (map key ts)).

(** [Series.get(k, default)]. *)
Definition series_get (s : list (Z * float)) (k : Z) (default : float) : float :=
  match find (fun e => (fst e =? k)%Z) s with
  | Some e => snd e
  | None => default
  end.

(** The finite entries of a series, which are those [max], [min] and [mean]
    aggregate (they skip NaN). *)
Definition finite_values (s : list (Z * float)) : list Q :=
  flat_map (fun e => match snd e with Fin q => [q] | _ => [] end) s.

Definition series_max (s : list (Z * float)) : float :=
  match finite_values s with
  | [] => NaN
  | l => Fin (amax l)
  end.

Definition series_min (s : list (Z * float)) : float :=
  match finite_values s with
  | [] => NaN
  | l => Fin (amin l)
  end.

Definition series_mean (s : list (Z * float)) : float := mean (finite_values s).

(** The numeric entries of the dictionary [analyze_trends] returns. *)
Record Trends : Type := {
  slope : float;
  direction : string;
  monthly_variation : float;
  weekend_vs_weekday : float;
  last_30d_growth : float;
  current_avg : float;
  previous_avg : float
}.

Definition sales (ts : list TSRow) : list Q := map ts_sales ts.

Definition monthly_variation_of (ts : list TSRow) : float :=
  let monthly_avg := group_means month ts in
  fmul (fdiv (fsub (series_max monthly_avg) (series_min monthly_avg))
             (series_mean monthly_avg))
       (Fin 100).

Definition weekend_vs_weekday_of (ts : list TSRow) : float :=
  fdiv (mean (sales (filter (fun r => is_weekend r) ts)))
       (mean (sales (filter (fun r => negb (is_weekend r)) ts))).

Definition recent_30d (ts : list TSRow) : float := mean (tail 30 (sales ts)).

Definition previous_30d (ts : list TSRow) : float := mean (iloc_neg 60 30 (sales ts)).

(** [(recent_30d - previous_30d) / previous_30d * 100 if previous_30d > 0
    else 0]. *)
Definition growth_30d (ts : list TSRow) : float :=
  if fgtb (previous_30d ts) (Fin 0)
  then fmul (fdiv (fsub (recent_30d ts) (previous_30d ts)) (previous_30d ts))
            (Fin 100)
  else Fin 0.

Definition analyze_trends (ts : list TSRow) : result Trends :=
  let y := sales ts in
  fit <- linregress (arange 0 (length y)) y ;;
  Ok {| slope := fst fit;
        direction := if fgtb (fst fit) (Fin 0) then "Increasing" else "Decreasing";
        monthly_variation := monthly_variation_of ts;
        weekend_vs_weekday := weekend_vs_weekday_of ts;
        last_30d_growth := growth_30d ts;
        current_avg := recent_30d ts;
        previous_avg := previous_30d ts |}.

(** ** The forecasts *)

Definition linear_trend_forecast (ts : list TSRow) (forecast_days : nat)
  : result (list float) :=
  let recent_data := tail 90 (sales ts) in
  fit <- linregress (arange 0 (length recent_data)) recent_data ;;
  let future_x := arange (length recent_data) forecast_days in
  let forecast :=
    map (fun x => fadd (fmul (fst fit) (Fin x)) (snd fit)) future_x in
  Ok (map (fun v => fmaximum v (Fin 0)) forecast).

(** [monthly_factors / overall_mean], entry by entry. *)
Definition scale_by (s : list (Z * float)) (d : float) : list (Z * float) :=
  map (fun e => (fst e, fdiv (snd e) d)) s.

(** [pd.date_range(start=ts_df.index[-1] + timedelta(days=1),
    periods=forecast_days)]. *)
Definition forecast_dates (ts : list TSRow) (forecast_days : nat) : list Z :=
  map (fun i => (last (map ts_date ts) 0 + 1 + Z.of_nat i)%Z) (seq 0 forecast_days).

Definition seasonal_forecast (ts : list TSRow) (forecast_days : nat)
  : result (list float) :=
  let overall_mean := mean (sales ts) in
  let monthly_factors :=
    scale_by (group_means (fun r => month_of (ts_date r)) ts) overall_mean in
  let dow_factors :=
    scale_by (group_means (fun r => dayofweek (ts_date r)) ts) overall_mean in
  base_forecast <- linear_trend_forecast ts forecast_days ;;
  Ok (map (fun '(d, base) =>
             let month_factor := series_get monthly_factors (month_of d) (Fin 1) in
             let dow_factor := series_get dow_factors (dayofweek d) (Fin 1) in
             let seasonal_factor := fdiv (fadd month_factor dow_factor) (Fin 2) in
             fmul base seasonal_factor)
          (combine (forecast_dates ts forecast_days) base_forecast)).

(** ** Vocabulary of the forecast properties *)

(** Equality of float values, finite ones compared as rationals. *)
Definition feq (a b : float) : Prop :=
  match a, b with
  | Fin p, Fin q => p == q
  | PInf, PInf | NInf, NInf | NaN, NaN => True
  | _, _ => False
  end.

(** [v < 0] does not hold. *)
Definition not_negative (v : float) : Prop := fltb v (Fin 0) = false.

Definition nonnegative_sales (df : list SalesRow) : Prop :=
  Forall (fun r => 0 <= daily_sales r) df.



(** A series is dense when it has one row per date and no calendar day
    between two of its dates is missing. *)
Definition no_gaps (df : list SalesRow) : Prop :=
  forall a b d,
    In a (map date df) -> In b (map date df) -> (a <= d <= b)%Z ->
    In d (map date df).

Definition dense (df : list SalesRow) : Prop :=
  df <> [] /\ NoDup (map date df) /\ no_gaps df.

Definition sorted_by_date (df : list SalesRow) : Prop :=
  StronglySorted Z.lt (map date df).

(** Finite and at least zero, plus infinity, or NaN. *)
Definition nn (v : float) : Prop :=
  match v with
  | Fin q => 0 <= q
  | NInf => False
  | PInf | NaN => True
  end.

Definition nonneg_ts (ts : list TSRow) : Prop :=
  Forall (fun r => 0 <= ts_sales r) ts.

(** The factor the loop of [seasonal_forecast] applies on the forecast date
    [d]. *)
Definition seasonal_factor (ts : list TSRow) (d : Z) : float :=
  let overall_mean := mean (sales ts) in
  let monthly_factors :=
    scale_by (group_means (fun r => month_of (ts_date r)) ts) overall_mean in
  let dow_factors :=
    scale_by (group_means (fun r => dayofweek (ts_date r)) ts) overall_mean in
  fdiv (fadd (series_get monthly_factors (month_of d) (Fin 1))
             (series_get dow_factors (dayofweek d) (Fin 1)))
       (Fin 2).

(** ** Sample series *)

(** Consecutive days from [start] with the given sales, one order a day. *)
Definition daily (start : Z) (values : list Q) : list SalesRow :=
  map (fun '(i, v) => {| date := (start + Z.of_nat i)%Z; daily_sales := v;
                         order_count := 1; avg_order_value := v |})
      (combine (seq 0 (length values)) values).

(** The prepared frame of a sample, empty if preparation raises. *)
Definition prepared (df : list SalesRow) : list TSRow :=
  match prepare_time_series df with
  | Ok ts => ts
  | Raise _ => []
  end.

(** 2026-01-01 is day 20454, a Thursday. *)
Definition ten_days : list SalesRow := daily 20454 (repeat 100 10).


(** A shop open on weekends only: Saturday 3, Sunday 4 and Saturday 10 of
    January 2026. *)
Definition weekend_shop : list SalesRow :=
  [ {| date := 20456; daily_sales := 100; order_count := 1; avg_order_value := 100 |};
    {| date := 20457; daily_sales := 100; order_count := 1; avg_order_value := 100 |};
    {| date := 20463; daily_sales := 100; order_count := 1; avg_order_value := 100 |} ].

(** Two free orders ten days apart: every daily total is zero. *)
Definition free_orders : list SalesRow :=
  [ {| date := 20454; daily_sales := 0; order_count := 1; avg_order_value := 0 |};
    {| date := 20464; daily_sales := 0; order_count := 1; avg_order_value := 0 |} ].

(** Five days of falling sales. *)
Definition falling_sales : list SalesRow := daily 20454 [40; 30; 20; 10; 0].

End Forecast.


(* ===================================================================== *)
(** * Segment statistics and recommendations                               *)
(* ===================================================================== *)

Module Report.

Import RFM.
Local Open Scope string_scope.
Local Open Scope list_scope.
Local Open Scope Z_scope.

(** ** Scores as interval numbers *)

(** The interval number of [v] among the quintile edges of the column [x]:
    the score under the labels 1..5, and its mirror under 5..1. *)
Definition score_up (x : list Z) (v : Z) : Z :=
  Z.of_nat (bin_id (quantile_edges (ZSort.sort x)) (5 * v)).

Definition score_down (x : list Z) (v : Z) : Z := 6 - score_up x v.

(** ** [analyze_segment_characteristics] *)

Definition segment_eqb (a b : Segment) : bool :=
  if Segment_eq_dec a b then true else false.

(** The ten segments in the order of their names, which is the order in
    which [groupby('Segment')] lists the groups. *)
Definition segments_by_name : list Segment :=
  [ AboutToSleep; AtRisk; CannotLoseThem; Champions; Hibernating;
    LoyalCustomers; NeedAttention; NewCustomers; PotentialLoyalists; Promising ].

Definition rows_of (seg : Segment) (segments : list SegmentRow) : list SegmentRow :=
  filter (fun row => segment_eqb (Segment_of row) seg) segments.

(** The index of the grouped frame: the segments that occur. *)
Definition segment_index (segments : list SegmentRow) : list Segment :=
  filter (fun seg => existsb (fun row => segment_eqb (Segment_of row) seg) segments)
         segments_by_name.

Definition monetary_of (row : SegmentRow) : Z := Monetary (scored_rfm (seg_scored row)).

(** A row of the analysis frame, by its two exact columns: [Customer_Count]
    ([groupby('Segment').size()]) and [Monetary_sum] (a sum of two-decimal
    amounts, which [.round(2)] leaves as it is; in hundredths).  The means,
    the medians and [Revenue_Percentage] are rounded quotients and are not
    carried. *)
Record SegmentStats : Type := {
  stats_segment : Segment;
  Customer_Count : Z;
  Monetary_sum : Z
}.

Definition analyze_segment_characteristics (segments : list SegmentRow)
  : list SegmentStats :=
  map (fun seg =>
         let g := rows_of seg segments in
         {| stats_segment := seg;
            Customer_Count := Z.of_nat (length g);
            Monetary_sum := sum_of (map monetary_of g) |})
      (segment_index segments).

(** [total_revenue = segments['Monetary'].sum()]. *)
Definition total_revenue (segments : list SegmentRow) : Z :=
  sum_of (map monetary_of segments).

(** ** [generate_business_recommendations] *)

Record Recommendation : Type := {
  strategy : string;
  actions : list string;
  priority : string
}.

(** The dictionary the method builds and returns. *)
Definition recommendations : list (string * Recommendation) :=
  [ ("Champions",
     {| strategy := "Reward and Retain";
        actions := [ "Offer exclusive VIP programs and early access to new products";
                     "Ask for referrals and reviews";
                     "Upsell premium products and services";
                     "Create a Champions loyalty tier with special perks" ];
        priority := "High" |});
    ("Loyal Customers",
     {| strategy := "Maintain Satisfaction";
        actions := [ "Regular engagement through personalized offers";
                     "Birthday and anniversary rewards";
                     "Cross-sell complementary products";
                     "Maintain high service quality" ];
        priority := "High" |});
    ("Potential Loyalists",
     {| strategy := "Increase Frequency";
        actions := [ "Create membership programs to increase visit frequency";
                     "Send targeted offers for faster follow-up purchases";
                     "Recommend products based on purchase history";
                     "Implement retention campaigns" ];
        priority := "Medium" |});
    ("New Customers",
     {| strategy := "Nurture and Convert";
        actions := [ "Welcome series with product education";
                     "First-time buyer incentives for repeat purchases";
                     "Onboarding campaigns to increase engagement";
                     "Product recommendations and tutorials" ];
        priority := "Medium" |});
    ("At Risk",
     {| strategy := "Win Back";
        actions := [ "Send personalized win-back campaigns";
                     "Offer significant discounts or incentives";
                     "Survey to understand pain points";
                     "Re-engagement email series with value propositions" ];
        priority := "High" |});
    ("Cannot Lose Them",
     {| strategy := "Urgent Recovery";
        actions := [ "Immediate personal outreach from account managers";
                     "Exclusive recovery offers and apologies";
                     "VIP customer service and problem resolution";
                     "Long-term retention programs" ];
        priority := "Critical" |});
    ("Hibernating",
     {| strategy := "Cost-Effective Reactivation";
        actions := [ "Low-cost reactivation campaigns";
                     "Survey to understand dormancy reasons";
                     "Seasonal or event-based re-engagement";
                     "Consider removing from active marketing to reduce costs" ];
        priority := "Low" |}) ].

(** [recommendations[segment]] guarded by [segment in recommendations]. *)
Definition recommendation_for (name : string) : option Recommendation :=
  match find (fun e => String.eqb (fst e) name) recommendations with
  | Some e => Some (snd e)
  | None => None
  end.

(** The blocks the method prints: one for each segment of the analysis
    frame that has an entry, in the order of the frame. *)
Definition printed_recommendations (analysis : list SegmentStats)
  : list (Segment * Z * Recommendation) :=
  flat_map (fun st =>
              match recommendation_for (segment_name (stats_segment st)) with
              | Some rec => [(stats_segment st, Customer_Count st, rec)]
              | None => []
              end)
           analysis.

(** ** Sample orders *)


End Report.

(* ===================================================================== *)
(** * The moving average, the insights and the forecast run                *)
(* ===================================================================== *)

Module ForecastRun.

Import Forecast.
Local Open Scope string_scope.
Local Open Scope list_scope.
Local Open Scope Q_scope.

(** What a forecast step can raise: an exception of the libraries, or the
    [IndexError] of [.iloc[-1]] on an empty series. *)
Inductive run_exn : Type :=
| LibraryError (e : exn)
| IndexOutOfBounds.

Inductive outcome (A : Type) : Type :=
| Done (a : A)
| Failed (e : run_exn).

Arguments Done {A} a.
Arguments Failed {A} e.



(** ** [simple_moving_average_forecast] *)

(** [rolling(window).mean()] at the last position: NaN until [window]
    observations exist. *)
Definition last_rolling_mean (window : nat) (y : list Q) : float :=
  if (length y <? window)%nat then NaN else mean (tail window y).

Definition simple_moving_average_forecast
           (ts : list TSRow) (forecast_days window : nat) : outcome (list float) :=
  match ts with
  | [] => Failed IndexOutOfBounds
  | _ => Done (repeat (last_rolling_mean window (sales ts)) forecast_days)
  end.

(** ** [generate_business_insights]: the recommendations

    The three insight lists are formatted text; the list of recommendations
    is chosen by three comparisons on the trend figures. *)

Definition decline_recommendations : list string :=
  [ "Investigate factors causing sales decline";
    "Consider promotional campaigns to boost sales";
    "Analyze customer feedback and market conditions" ].

Definition seasonal_recommendations : list string :=
  [ "High seasonal variation detected - prepare inventory management";
    "Consider seasonal marketing campaigns";
    "Plan cash flow around seasonal patterns" ].

Definition weekend_recommendation : string :=
  "Weekend sales are strong - consider weekend-specific promotions".

Definition weekday_recommendation : string :=
  "Weekday sales outperform weekends - focus weekday marketing".

Definition insight_recommendations (trends : Trends) : list string :=
  (if fltb (last_30d_growth trends) (Fin 0) then decline_recommendations else [])
  ++ (if fgtb (monthly_variation trends) (Fin 30) then seasonal_recommendations else [])
  ++ (if fgtb (weekend_vs_weekday trends) (Fin (12 # 10)) then [weekend_recommendation]
      else if fltb (weekend_vs_weekday trends) (Fin (8 # 10)) then [weekday_recommendation]
      else []).

(** ** [run_complete_forecast] *)




(** ** Vocabulary and sample series *)

(** The sales the input frame records on the date [d]: those of its first
    row of that date, zero if it has none. *)
Definition sales_on (df : list SalesRow) (d : Z) : Q :=
  match find (fun r => (date r =? d)%Z) df with
  | Some r => daily_sales r
  | None => 0
  end.

(** Ninety days at 100 a day, and sixty days that drop from 100 to 50 a day
    after the first thirty. *)
Definition ninety_days : list SalesRow := daily 20454 (repeat 100 90).

Definition halved_sales : list SalesRow :=
  daily 20454 (repeat 100 30 ++ repeat 50 30).

End ForecastRun.

(* ===================================================================== *)
(** * Properties of columns                                                *)
(* ===================================================================== *)

Module ColumnFacts.

Local Open Scope Z_scope.

Lemma no_duplicates_NoDup (l : list Z) : has_duplicates l = false -> NoDup l.
Proof.
  induction l as [| a l IH]; cbn; [constructor |].
  intros H. apply orb_false_iff in H. destruct H as [Ha Hl].
  constructor; [| now apply IH].
  intros Hin.
  assert (existsb (Z.eqb a) l = true)
    by (apply existsb_exists; exists a; split; [assumption | apply Z.eqb_refl]).
  congruence.
Qed.

Lemma NoDup_has_no_duplicates (l : list Z) : NoDup l -> has_duplicates l = false.
Proof.
  induction 1 as [| a l Hnotin _ IH]; [reflexivity |]. cbn. rewrite IH, orb_false_r.
  destruct (existsb (Z.eqb a) l) eqn:E; [| reflexivity].
  apply existsb_exists in E. destruct E as (y & Hy & Heq).
  apply Z.eqb_eq in Heq. subst y. contradiction.
Qed.

Lemma strictly_sorted_NoDup (l : list Z) : StronglySorted Z.lt l -> NoDup l.
Proof.
  induction 1 as [| a l _ IH Hall]; constructor; [| assumption].
  intros Hin. rewrite Forall_forall in Hall. specialize (Hall a Hin). lia.
Qed.

(** Two strictly increasing columns with the same values are equal. *)
Lemma strictly_sorted_ext (l1 : list Z) : forall l2,
  StronglySorted Z.lt l1 -> StronglySorted Z.lt l2 ->
  (forall d, In d l1 <-> In d l2) -> l1 = l2.
Proof.
  induction l1 as [| a t1 IH]; intros [| b t2] H1 H2 Hext.
  - reflexivity.
  - exfalso. apply (proj2 (Hext b)). now left.
  - exfalso. apply (proj1 (Hext a)). now left.
  - apply StronglySorted_inv in H1, H2.
    destruct H1 as [H1 Ha], H2 as [H2 Hb].
    rewrite Forall_forall in Ha, Hb.
    assert (a = b) as <-.
    { destruct (proj1 (Hext a) (or_introl eq_refl)) as [-> | Hin]; [reflexivity |].
      destruct (proj2 (Hext b) (or_introl eq_refl)) as [-> | Hin']; [reflexivity |].
      specialize (Ha _ Hin'). specialize (Hb _ Hin). lia. }
    f_equal. apply IH; try assumption. intros d. split; intros Hd.
    + destruct (proj1 (Hext d) (or_intror Hd)) as [<- | ]; [| assumption].
      specialize (Ha _ Hd). lia.
    + destruct (proj2 (Hext d) (or_intror Hd)) as [<- | ]; [| assumption].
      specialize (Hb _ Hd). lia.
Qed.

Lemma NoDup_map_injective (A B : Type) (f : A -> B) (l : list A) a b :
  NoDup (map f l) -> In a l -> In b l -> f a = f b -> a = b.
Proof.
  induction l as [| x l IH]; [contradiction |]. cbn [map].
  intros Hnd Ha Hb Hab. apply NoDup_cons_iff in Hnd. destruct Hnd as [Hx Hnd].
  destruct Ha as [-> | Ha], Hb as [-> | Hb]; auto.
  - exfalso. apply Hx. rewrite Hab. now apply in_map.
  - exfalso. apply Hx. rewrite <- Hab. now apply in_map.
Qed.

End ColumnFacts.

(* ===================================================================== *)
(** * Properties of the segmentation                                       *)
(* ===================================================================== *)

Module RFMFacts.

Import RFM ColumnFacts.
Local Open Scope Z_scope.

(** ** The classifier *)

Lemma assign_segment_refines_cascade r f m :
  assign_segment r f m = spec_classifier r f m.
Proof.
  unfold assign_segment, spec_classifier, cascade, first_match.
  now rewrite !Z.geb_leb.
Qed.

(** Top-to-bottom evaluation of any rule table stops at the first rule
    whose condition holds. *)
Lemma first_match_at_first_index rules otherwise r f m :
  let k := first_index rules r f m in
  (k <= length rules)%nat /\
  first_match rules otherwise r f m
    = match nth_error rules k with Some (_, seg) => seg | None => otherwise end /\
  (forall cond seg, nth_error rules k = Some (cond, seg) -> cond r f m = true) /\
  (forall j cond seg, (j < k)%nat -> nth_error rules j = Some (cond, seg) ->
                      cond r f m = false).
Proof.
  induction rules as [| [c s] rest IH]; cbn.
  - split; [lia |]. split; [reflexivity |]. split.
    + intros cond seg E. discriminate E.
    + intros j cond seg Hj. lia.
  - destruct (c r f m) eqn:Hc; cbn.
    + split; [lia |]. split; [reflexivity |]. split.
      * intros cond seg [= <- <-]. exact Hc.
      * intros j cond seg Hj. lia.
    + destruct IH as (Hlen & Hres & Hhit & Hmiss).
      split; [lia |]. split; [exact Hres |]. split; [exact Hhit |].
      intros [| j] cond seg Hj; cbn.
      * intros [= <- <-]. exact Hc.
      * apply Hmiss. lia.
Qed.

Ltac bool_to_Z :=
  repeat match goal with
    | H : _ && _ = true |- _ => apply andb_true_iff in H; destruct H
    | H : _ && _ = false |- _ => apply andb_false_iff in H; destruct H
    | H : (_ >=? _) = _ |- _ => rewrite Z.geb_leb in H
    | H : (_ <=? _) = true |- _ => apply Z.leb_le in H
    | H : (_ <=? _) = false |- _ => apply Z.leb_gt in H
    end.

Ltac split_cascade :=
  unfold assign_segment;
  repeat match goal with
    | |- context [if ?c then _ else _] => destruct c eqn:?
    end.

(** C1. The segment classifier is a total function of the three scores that
    agrees with the ten-rule cascade of section 4.3 evaluated top to bottom:
    for scores in 1..5 the result is the segment of the first rule whose
    condition holds, rule 10 holding always; (5,5,5) is Champions and
    (5,5,1) is Loyal Customers, not Champions. *)
Theorem assign_segment_is_first_match_cascade :
  (forall r f m,
      in_score_range r -> in_score_range f -> in_score_range m ->
      assign_segment r f m = spec_classifier r f m /\
      exists k, (1 <= k <= 10)%nat /\
                rule_cond k r f m = true /\
                (forall j, (1 <= j < k)%nat -> rule_cond j r f m = false) /\
                assign_segment r f m = rule_segment k) /\
  rule_cond 10 = (fun _ _ _ => true) /\
  assign_segment 5 5 5 = Champions /\
  assign_segment 5 5 1 = LoyalCustomers /\
  assign_segment 5 5 1 <> Champions.
Proof.
  split; [| repeat split; discriminate].
  intros r f m _ _ _. split; [apply assign_segment_refines_cascade |].
  rewrite assign_segment_refines_cascade. unfold spec_classifier.
  destruct (first_match_at_first_index cascade Hibernating r f m)
    as (Hlen & Hres & Hhit & Hmiss).
  set (k := first_index cascade r f m) in *.
  exists (S k). change (length cascade) with 9%nat in Hlen.
  unfold rule_cond, rule_segment. cbn [pred].
  repeat split; try lia.
  - destruct (nth_error cascade k) as [[c s] |] eqn:E; [eapply Hhit; eauto | reflexivity].
  - intros j Hj. destruct j as [| j]; [lia |]. cbn [pred].
    destruct (nth_error cascade j) as [[c s] |] eqn:E.
    + eapply Hmiss; [| exact E]. lia.
    + apply nth_error_None in E. change (length cascade) with 9%nat in E. lia.
  - exact Hres.
Qed.

Lemma assign_segment_is_first_match_cascade_witness :
  assign_segment 3 2 4 = spec_classifier 3 2 4 /\
  exists k, (1 <= k <= 10)%nat /\
            rule_cond k 3 2 4 = true /\
            (forall j, (1 <= j < k)%nat -> rule_cond j 3 2 4 = false) /\
            assign_segment 3 2 4 = rule_segment k.
Proof.
  apply (proj1 assign_segment_is_first_match_cascade 3 2 4);
    unfold in_score_range; lia.
Defined.

(** C9. For scores in 1..5 the classifier never returns About to Sleep:
    when rules 1 to 6 have all failed the recency score is 1, and rule 7's
    condition (r >= 2 and f >= 2) is then false. *)
Theorem about_to_sleep_unreachable r f m :
  in_score_range r -> in_score_range f -> in_score_range m ->
  assign_segment r f m <> AboutToSleep /\
  ((forall j, (1 <= j <= 6)%nat -> rule_cond j r f m = false) ->
   r = 1 /\ rule_cond 7 r f m = false).
Proof.
  unfold in_score_range. intros Hr Hf Hm. split.
  - split_cascade; try discriminate. bool_to_Z; lia.
  - intros Hfail.
    pose proof (Hfail 1%nat ltac:(lia)) as H1.
    pose proof (Hfail 2%nat ltac:(lia)) as H2.
    pose proof (Hfail 3%nat ltac:(lia)) as H3.
    pose proof (Hfail 4%nat ltac:(lia)) as H4.
    pose proof (Hfail 6%nat ltac:(lia)) as H6.
    cbn in H1, H2, H3, H4, H6.
    assert (r = 1) as -> by (bool_to_Z; lia).
    split; reflexivity.
Qed.

Lemma about_to_sleep_unreachable_witness :
  assign_segment 1 5 5 <> AboutToSleep /\
  ((forall j, (1 <= j <= 6)%nat -> rule_cond j 1 5 5 = false) ->
   1 = 1 /\ rule_cond 7 1 5 5 = false).
Proof.
  apply (about_to_sleep_unreachable (r:=1) (f:=5) (m:=5));
    unfold in_score_range; lia.
Defined.

(** C10. For scores in 1..5 the classifier returns New Customers exactly
    when r >= 4 and f = 1: rule 4 reads f <= 2, but f = 2 is taken by rule 3
    before it. *)
Theorem new_customers_iff r f m :
  in_score_range r -> in_score_range f -> in_score_range m ->
  assign_segment r f m = NewCustomers <-> 4 <= r /\ f = 1.
Proof.
  unfold in_score_range. intros Hr Hf Hm. split.
  - split_cascade; try discriminate. intros _. bool_to_Z; lia.
  - intros [H4 ->]. unfold assign_segment.
    assert ((r >=? 4) = true) as -> by (rewrite Z.geb_leb; now apply Z.leb_le).
    assert ((r >=? 3) = true) as -> by (rewrite Z.geb_leb; apply Z.leb_le; lia).
    reflexivity.
Qed.

Lemma new_customers_iff_witness :
  assign_segment 4 1 3 = NewCustomers <-> 4 <= 4 /\ 1 = 1.
Proof.
  apply (new_customers_iff (r:=4) (f:=1) (m:=3)); unfold in_score_range; lia.
Defined.

(** ** Empty input *)

(** C3, as the specification states it, fails: on an empty transaction set
    the aggregator returns (an empty table) and the scoring step is
    entered. *)
Lemma empty_input_is_not_rejected : ~ aggregator_rejects_empty_input.
Proof.
  intros H. destruct (H []) as [[e He] _]. discriminate He.
Qed.

(** C3, amended. On an empty transaction set the aggregator does not raise:
    it returns the empty RFM table.  The run goes on to the scoring step,
    whose quantile binning raises on the empty table; the run ends with that
    error and returns no segments. *)
Theorem empty_input_fails_in_scoring log :
  calculate_rfm_metrics_io [] log
    = (log ++ [CalculatingRFMMetrics; RFMCalculatedFor 0], Ok []) /\
  create_rfm_scores [] = Raise BinEdgesNotUnique /\
  run_complete_analysis [] log
    = ((log ++ [CalculatingRFMMetrics; RFMCalculatedFor 0]) ++ [CreatingRFMScores],
       Raise BinEdgesNotUnique).
Proof.
  repeat split.
  - unfold calculate_rfm_metrics_io, io_bind, print, ret. cbn.
    now rewrite <- app_assoc.
  - unfold run_complete_analysis, calculate_rfm_metrics_io, create_rfm_scores_io,
      io_bind, print, ret, lift. cbn.
    now rewrite <- !app_assoc.
Qed.

(** ** The quantile scorer *)

Lemma sort_strictly_sorted (x : list Z) :
  NoDup x -> StronglySorted Z.lt (ZSort.sort x).
Proof.
  intros Hnd.
  assert (Hs : StronglySorted (fun a b => is_true (a <=? b)) (ZSort.sort x)).
  { apply ZSort.StronglySorted_sort. intros a b c. unfold ZOrder.leb, is_true.
    rewrite !Z.leb_le. lia. }
  assert (Hn : NoDup (ZSort.sort x))
    by (eapply Permutation_NoDup; [apply ZSort.Permuted_sort | exact Hnd]).
  induction Hs as [| a l Hs IH Hall]; constructor.
  - apply IH. now inversion Hn.
  - inversion Hn as [| ? ? Hnotin _]; subst.
    rewrite Forall_forall in *. intros y Hy.
    specialize (Hall y Hy). unfold is_true in Hall. rewrite Z.leb_le in Hall.
    assert (a <> y) by (intros ->; contradiction). lia.
Qed.




Lemma count_lt_cons v a l :
  count_lt v (a :: l) = ((if (a <? v)%Z then 1 else 0) + count_lt v l)%nat.
Proof. unfold count_lt. cbn. now destruct (a <? v). Qed.






Ltac decide_comparisons :=
  repeat match goal with
    | |- context [?a <? ?b] =>
        first [ replace (a <? b) with true by (symmetry; apply Z.ltb_lt; lia)
              | replace (a <? b) with false by (symmetry; apply Z.ltb_ge; lia) ]
    | |- context [?a =? ?b] =>
        first [ replace (a =? b) with true by (symmetry; apply Z.eqb_eq; lia)
              | replace (a =? b) with false by (symmetry; apply Z.eqb_neq; lia) ]
    end.

Section Hundred.

Variable s : list Z.
Hypothesis Hlen : length s = 100%nat.
Hypothesis Hsorted : StronglySorted Z.lt s.

Let a (i : nat) : Z := nth i s 0.




End Hundred.




(** ** [qcut] on one hundred pairwise distinct values *)


Lemma astype_int_some (A : Type) (g : A -> Z) (x : list A) :
  astype_int (map (fun v => Some (g v)) x) = Ok (map g x).
Proof.
  unfold astype_int. induction x as [| a l IH]; [reflexivity |].
  cbn. cbn in IH. now rewrite IH.
Qed.

















(** The three-customer scenario of the specification: A (recency 1, ten
    orders, 2000 spent), B (200, one order, 50) and C (30, four orders, 600).
    A scores highest and B lowest on every axis; A is a Champion and B is
    Hibernating. *)
Example three_customer_cohort :
  (scores <- create_rfm_scores
               [ {| rfm_customer := 1; Recency := 100; Frequency := 10; Monetary := 200000 |};
                 {| rfm_customer := 2; Recency := 20000; Frequency := 1; Monetary := 5000 |};
                 {| rfm_customer := 3; Recency := 3000; Frequency := 4; Monetary := 60000 |} ] ;;
   Ok (map (fun row => (R_Score (seg_scored row), F_Score (seg_scored row),
                        M_Score (seg_scored row), Segment_of row))
           (create_customer_segments scores)))
  = Ok [ (5, 5, 5, Champions); (1, 1, 1, Hibernating); (3, 3, 3, Promising) ].
Proof. vm_compute. reflexivity. Qed.

(** C2, evaluated.  Only the frequency column is ranked before it is
    binned.  Five customers tied on recency make [create_rfm_scores] raise,
    where binning over the stable rank order scores them 5 to 1; two
    customers tied on monetary value receive the same score, where the
    stable rank order separates them. *)
Theorem ties_only_broken_for_frequency :
  create_rfm_scores same_day_cohort = Raise BinEdgesNotUnique /\
  (r <- stable_rank_scores same_day_cohort ;; Ok (map R_Score r))
    = Ok [5; 4; 3; 2; 1] /\
  (r <- create_rfm_scores tied_spend_cohort ;; Ok (map M_Score r))
    = Ok [1; 1; 1; 2; 3; 3; 4; 4; 5; 5] /\
  (r <- stable_rank_scores tied_spend_cohort ;; Ok (map M_Score r))
    = Ok [1; 1; 2; 2; 3; 3; 4; 4; 5; 5].
Proof. repeat split; vm_compute; reflexivity. Qed.

End RFMFacts.

(* ===================================================================== *)
(** * Properties of the forecast                                           *)
(* ===================================================================== *)

Module ForecastFacts.

Import Forecast ColumnFacts.
Local Open Scope Q_scope.

(** ** Signs of float values *)

Lemma Qltb_lt a b : Qltb a b = true <-> a < b.
Proof.
  unfold Qltb. rewrite negb_true_iff. split.
  - intros H. apply Qnot_le_lt. intros Hle. apply Qle_bool_iff in Hle. congruence.
  - intros H. destruct (Qle_bool b a) eqn:E; [| reflexivity].
    apply Qle_bool_iff in E. exfalso. eapply Qlt_not_le; eassumption.
Qed.

Lemma Qltb_ge a b : Qltb a b = false <-> b <= a.
Proof.
  unfold Qltb. rewrite negb_false_iff. apply Qle_bool_iff.
Qed.

Lemma nn_not_negative v : nn v -> not_negative v.
Proof.
  unfold not_negative, fltb, fgtb. destruct v as [q | | |]; cbn; try easy.
  intros H. now apply Qltb_ge.
Qed.

Lemma nn_fmaximum_zero v : nn (fmaximum v (Fin 0)).
Proof.
  destruct v as [q | | |]; cbn; try easy.
  - destruct (Qltb q 0) eqn:E; cbn; [apply Qle_refl | now apply Qltb_ge].
Qed.

Lemma nn_fadd a b : nn a -> nn b -> nn (fadd a b).
Proof.
  destruct a as [p | | |], b as [q | | |]; cbn; try easy.
  intros; lra.
Qed.

Lemma nn_inf_times q : 0 <= q -> nn (inf_times true q).
Proof.
  intros Hq. unfold inf_times. destruct (Qeq_bool q 0) eqn:E; [exact I |].
  replace (Qltb 0 q) with true; [exact I |].
  symmetry. apply Qltb_lt. apply Qeq_bool_neq in E.
  destruct (Qlt_le_dec 0 q) as [|Hle]; [assumption |].
  exfalso. apply E. now apply Qle_antisym.
Qed.

Lemma nn_fmul a b : nn a -> nn b -> nn (fmul a b).
Proof.
  destruct a as [p | | |], b as [q | | |]; cbn; try easy.
  - intros. now apply Qmult_le_0_compat.
  - intros. now apply nn_inf_times.
  - intros. now apply nn_inf_times.
Qed.

Lemma Qdiv_nonneg p q : 0 <= p -> 0 <= q -> 0 <= p / q.
Proof.
  intros Hp Hq. unfold Qdiv. apply Qmult_le_0_compat; [assumption |].
  now apply Qinv_le_0_compat.
Qed.

Lemma nn_fdiv a b : nn a -> nn b -> nn (fdiv a b).
Proof.
  destruct a as [p | | |], b as [q | | |]; cbn; try easy.
  - intros Hp Hq. destruct (Qeq_bool q 0) eqn:Eq.
    + destruct (Qeq_bool p 0) eqn:Ep; [exact I |].
      replace (Qltb 0 p) with true; [exact I |].
      symmetry. apply Qltb_lt. apply Qeq_bool_neq in Ep.
      destruct (Qlt_le_dec 0 p) as [|Hle]; [assumption |].
      exfalso. apply Ep. now apply Qle_antisym.
    + cbn. now apply Qdiv_nonneg.
  - intros _ Hq. replace (Qltb q 0) with false; [exact I |].
    symmetry. now apply Qltb_ge.
Qed.

Lemma Qsum_nonneg l : Forall (fun q => 0 <= q) l -> 0 <= Qsum l.
Proof.
  induction 1 as [| q l Hq _ IH]; [apply Qle_refl |].
  change (Qsum (q :: l)) with (q + Qsum l). lra.
Qed.

Lemma Qlen_nonneg l : 0 <= Qlen l.
Proof.
  unfold Qlen. change 0 with (inject_Z 0). rewrite <- Zle_Qle. lia.
Qed.

Lemma nn_mean l : Forall (fun q => 0 <= q) l -> nn (mean l).
Proof.
  intros H. destruct l as [| a l]; [exact I |].
  cbn [mean nn]. unfold Qmean.
  apply Qdiv_nonneg; [now apply Qsum_nonneg | apply Qlen_nonneg].
Qed.

Lemma nn_group_means key ts :
  nonneg_ts ts -> Forall (fun e => nn (snd e)) (group_means key ts).
Proof.
  intros Hts. unfold group_means. apply Forall_forall. intros e He.
  apply in_map_iff in He. destruct He as (k & <- & _). cbn [snd].
  apply nn_mean. apply Forall_forall. intros q Hq.
  apply in_map_iff in Hq. destruct Hq as (r & <- & Hr).
  apply filter_In in Hr. destruct Hr as [Hr _].
  unfold nonneg_ts in Hts. rewrite Forall_forall in Hts. now apply Hts.
Qed.

Lemma nn_scale_by s d :
  Forall (fun e => nn (snd e)) s -> nn d ->
  Forall (fun e => nn (snd e)) (scale_by s d).
Proof.
  intros Hs Hd. unfold scale_by. apply Forall_forall. intros e He.
  apply in_map_iff in He. destruct He as (e0 & <- & He0). cbn [snd].
  rewrite Forall_forall in Hs. apply nn_fdiv; auto.
Qed.

Lemma nn_series_get s k default :
  Forall (fun e => nn (snd e)) s -> nn default -> nn (series_get s k default).
Proof.
  intros Hs Hd. unfold series_get.
  destruct (find _ s) as [e |] eqn:E; [| assumption].
  apply find_some in E. rewrite Forall_forall in Hs. now apply Hs.
Qed.

(** [linregress] returns on [arange] and a non-empty column. *)

Lemma fold_max_ge t : forall x, x <= fold_left Qmax t x.
Proof.
  induction t as [| a t IH]; intros x; cbn [fold_left]; [apply Qle_refl |].
  eapply Qle_trans; [| apply IH]. apply Q.le_max_l.
Qed.

Lemma fold_min_le t : forall x, fold_left Qmin t x <= x.
Proof.
  induction t as [| a t IH]; intros x; cbn [fold_left]; [apply Qle_refl |].
  eapply Qle_trans; [apply IH |]. apply Q.le_min_l.
Qed.

Lemma arange_spread n : (1 < n)%nat -> ~ amax (arange 0 n) == amin (arange 0 n).
Proof.
  intros Hn. destruct n as [| [| n]]; try lia.
  unfold arange. cbn [seq map amax amin fold_left].
  pose proof (fold_max_ge (map (fun i => inject_Z (Z.of_nat i)) (seq 2 n))
                (Qmax (inject_Z (Z.of_nat 0)) (inject_Z (Z.of_nat 1)))) as Hmax.
  pose proof (fold_min_le (map (fun i => inject_Z (Z.of_nat i)) (seq 2 n))
                (Qmin (inject_Z (Z.of_nat 0)) (inject_Z (Z.of_nat 1)))) as Hmin.
  pose proof (Q.le_max_r (inject_Z (Z.of_nat 0)) (inject_Z (Z.of_nat 1))) as H1.
  pose proof (Q.le_min_l (inject_Z (Z.of_nat 0)) (inject_Z (Z.of_nat 1))) as H0.
  change (inject_Z (Z.of_nat 0)) with 0 in *.
  change (inject_Z (Z.of_nat 1)) with 1 in *.
  intros Heq. rewrite Heq in Hmax. 
  assert (1 <= 0) by (eapply Qle_trans; [exact H1 |];
                      eapply Qle_trans; [exact Hmax |];
                      eapply Qle_trans; [exact Hmin | exact H0]).
  lra.
Qed.

Lemma length_arange a n : length (arange a n) = n.
Proof. unfold arange. now rewrite length_map, length_seq. Qed.

Lemma linregress_arange_returns (y : list Q) :
  y <> [] -> exists fit, linregress (arange 0 (length y)) y = Ok fit.
Proof.
  intros Hy. destruct y as [| y0 y]; [contradiction |].
  unfold linregress.
  destruct (arange 0 (length (y0 :: y))) as [| x0 x] eqn:Ex; [discriminate Ex |].
  rewrite <- Ex.
  destruct (Qeq_bool (amax _) (amin _) && (1 <? length (arange 0 (length (y0 :: y))))%nat)
    eqn:E.
  - apply andb_true_iff in E. destruct E as [E1 E2].
    apply Qeq_bool_iff in E1. apply Nat.ltb_lt in E2.
    rewrite length_arange in E2. exfalso. now apply (arange_spread E2).
  - eexists. reflexivity.
Qed.

Lemma length_tail (A : Type) n (l : list A) : length (tail n l) = Nat.min n (length l).
Proof. unfold tail. rewrite length_skipn. lia. Qed.

Lemma tail_nonempty (A : Type) n (l : list A) : l <> [] -> (0 < n)%nat -> tail n l <> [].
Proof.
  intros Hl Hn Ht. apply (f_equal (@length A)) in Ht. rewrite length_tail in Ht.
  destruct l; [contradiction | cbn in Ht; lia].
Qed.

Lemma linear_trend_forecast_returns ts days :
  ts <> [] ->
  exists lin, linear_trend_forecast ts days = Ok lin /\ length lin = days /\
              Forall nn lin.
Proof.
  intros Hts. unfold linear_trend_forecast.
  assert (Hy : tail 90 (sales ts) <> []).
  { apply tail_nonempty; [| lia]. unfold sales. destruct ts; [contradiction | discriminate]. }
  destruct (linregress_arange_returns Hy) as [fit ->]. cbn [bind].
  eexists. split; [reflexivity |]. split.
  - now rewrite !length_map, length_arange.
  - apply Forall_forall. intros v Hv. apply in_map_iff in Hv.
    destruct Hv as (w & <- & _). apply nn_fmaximum_zero.
Qed.

Lemma nn_seasonal_factor ts d : nonneg_ts ts -> nn (seasonal_factor ts d).
Proof.
  intros Hts. unfold seasonal_factor.
  assert (Hm : nn (mean (sales ts))).
  { apply nn_mean. unfold sales. apply Forall_forall. intros q Hq.
    apply in_map_iff in Hq. destruct Hq as (r & <- & Hr).
    unfold nonneg_ts in Hts. rewrite Forall_forall in Hts. now apply Hts. }
  apply nn_fdiv; [| cbn; lra].
  apply nn_fadd; apply nn_series_get; try (cbn; lra);
    apply nn_scale_by; try assumption; now apply nn_group_means.
Qed.

Lemma seasonal_forecast_factors ts days :
  seasonal_forecast ts days
  = (base <- linear_trend_forecast ts days ;;
     Ok (map (fun '(d, b) => fmul b (seasonal_factor ts d))
             (combine (forecast_dates ts days) base))).
Proof. reflexivity. Qed.

Lemma forecasts_nn ts days :
  nonneg_ts ts -> ts <> [] ->
  exists lin,
    linear_trend_forecast ts days = Ok lin /\
    seasonal_forecast ts days
      = Ok (map (fun '(d, b) => fmul b (seasonal_factor ts d))
                (combine (forecast_dates ts days) lin)) /\
    length lin = days /\
    Forall nn lin /\
    Forall nn (map (fun '(d, b) => fmul b (seasonal_factor ts d))
                   (combine (forecast_dates ts days) lin)).
Proof.
  intros Hnn Hts.
  destruct (linear_trend_forecast_returns days Hts) as (lin & Hlin & Hlen & Hall).
  exists lin. rewrite seasonal_forecast_factors, Hlin. cbn [bind].
  repeat split; try assumption.
  apply Forall_forall. intros v Hv. apply in_map_iff in Hv.
  destruct Hv as ([d b] & <- & Hdb). apply in_combine_r in Hdb.
  rewrite Forall_forall in Hall.
  apply nn_fmul; [now apply Hall | now apply nn_seasonal_factor].
Qed.

(** ** The prepared frame *)

Local Open Scope Z_scope.

Lemma fold_min_spec t : forall x,
  fold_left Z.min t x <= x /\
  (forall y, In y t -> fold_left Z.min t x <= y) /\
  In (fold_left Z.min t x) (x :: t).
Proof.
  induction t as [| a t IH]; intros x; cbn [fold_left].
  - split; [lia |]. split; [intros y [] | now left].
  - destruct (IH (Z.min x a)) as (H1 & H2 & H3). split; [lia |]. split.
    + intros y [-> | Hy]; [lia | now apply H2].
    + destruct H3 as [H3 | H3]; [| now right; right].
      rewrite <- H3. destruct (Z.min_spec x a) as [[_ ->] | [_ ->]];
        [now left | now right; left].
Qed.

Lemma fold_max_spec t : forall x,
  x <= fold_left Z.max t x /\
  (forall y, In y t -> y <= fold_left Z.max t x) /\
  In (fold_left Z.max t x) (x :: t).
Proof.
  induction t as [| a t IH]; intros x; cbn [fold_left].
  - split; [lia |]. split; [intros y [] | now left].
  - destruct (IH (Z.max x a)) as (H1 & H2 & H3). split; [lia |]. split.
    + intros y [-> | Hy]; [lia | now apply H2].
    + destruct H3 as [H3 | H3]; [| now right; right].
      rewrite <- H3. destruct (Z.max_spec x a) as [[_ ->] | [_ ->]];
        [now right; left | now left].
Qed.

Lemma date_bounds (l : list Z) :
  l <> [] ->
  exists lo hi, min_date l = Some lo /\ max_date l = Some hi /\
                In lo l /\ In hi l /\ forall d, In d l -> lo <= d <= hi.
Proof.
  intros Hl. destruct l as [| x t]; [contradiction |].
  destruct (fold_min_spec t x) as (Hm1 & Hm2 & Hm3).
  destruct (fold_max_spec t x) as (HM1 & HM2 & HM3).
  exists (fold_left Z.min t x), (fold_left Z.max t x).
  repeat split; try assumption;
    destruct H as [<- | H]; auto.
Qed.

Lemma in_date_range lo hi d : In d (date_range lo hi) <-> lo <= d <= hi.
Proof.
  unfold date_range. rewrite in_map_iff. split.
  - intros (i & <- & Hi). apply in_seq in Hi. lia.
  - intros Hd. exists (Z.to_nat (d - lo)). split; [lia |]. apply in_seq. lia.
Qed.

Lemma date_range_sorted lo hi : StronglySorted Z.lt (date_range lo hi).
Proof.
  unfold date_range. generalize (Z.to_nat (hi - lo + 1)) as n. intros n.
  generalize 0%nat as k. induction n as [| n IH]; intros k; cbn; constructor.
  - apply IH.
  - apply Forall_forall. intros d Hd. apply in_map_iff in Hd.
    destruct Hd as (i & <- & Hi). apply in_seq in Hi. lia.
Qed.

Lemma ts_date_reindex_at df d : ts_date (reindex_at df d) = d.
Proof. unfold reindex_at. now destruct (find _ df). Qed.

Lemma reindex_at_present (df : list SalesRow) r :
  NoDup (map date df) -> In r df -> core (reindex_at df (date r)) = r.
Proof.
  intros Hnd Hr. unfold reindex_at.
  destruct (find (fun r' => date r' =? date r) df) as [r' |] eqn:E.
  - apply find_some in E. destruct E as [Hr' Hd]. apply Z.eqb_eq in Hd.
    assert (r' = r) as -> by (eapply NoDup_map_injective; eassumption).
    now destruct r.
  - exfalso. apply (find_none _ _ E) in Hr. now rewrite Z.eqb_refl in Hr.
Qed.

Lemma sales_reindex_at_nonneg (df : list SalesRow) d :
  nonnegative_sales df -> (0 <= ts_sales (reindex_at df d))%Q.
Proof.
  intros Hdf. unfold reindex_at.
  destruct (find _ df) as [r |] eqn:E; cbn; [| apply Qle_refl].
  apply find_some in E. destruct E as [Hr _].
  unfold nonnegative_sales in Hdf. rewrite Forall_forall in Hdf. now apply Hdf.
Qed.

Lemma prepare_time_series_inv (df : list SalesRow) ts :
  prepare_time_series df = Ok ts ->
  exists lo hi, min_date (map date df) = Some lo /\
                max_date (map date df) = Some hi /\
                lo <= hi /\
                ts = map (reindex_at df) (date_range lo hi).
Proof.
  unfold prepare_time_series. intros H.
  destruct (map date df) as [| x t] eqn:E; [discriminate H |].
  destruct (date_bounds (l := x :: t) ltac:(discriminate))
    as (lo & hi & Hlo & Hhi & Hinlo & _ & Hb).
  rewrite Hlo, Hhi in H. exists lo, hi.
  destruct (has_duplicates (x :: t)); [discriminate H |].
  injection H as <-. repeat split; try assumption.
  specialize (Hb lo Hinlo). lia.
Qed.

Lemma prepared_series_nonneg (df : list SalesRow) ts :
  prepare_time_series df = Ok ts -> nonnegative_sales df ->
  ts <> [] /\ nonneg_ts ts.
Proof.
  intros H Hdf. destruct (prepare_time_series_inv _ H) as (lo & hi & _ & _ & Hle & ->).
  split.
  - intros Hnil. apply (f_equal (@length TSRow)) in Hnil.
    unfold date_range in Hnil. rewrite !length_map, length_seq in Hnil.
    cbn in Hnil. lia.
  - apply Forall_forall. intros r Hr. apply in_map_iff in Hr.
    destruct Hr as (d & <- & _). now apply sales_reindex_at_nonneg.
Qed.

(** C8. Dense fill leaves a dense series as it is: when the input has one
    row per date and no missing day between its dates, the preparer returns
    a frame whose date index holds exactly the input's dates, each once, and
    whose rows carry the input's values unchanged; a date-ordered input is
    returned row for row. *)
Theorem dense_fill_identity (df : list SalesRow) :
  dense df ->
  exists ts, prepare_time_series df = Ok ts /\
             NoDup (map ts_date ts) /\
             Permutation (map core ts) df /\
             (forall d, In d (map ts_date ts) <-> In d (map date df)) /\
             (sorted_by_date df -> map core ts = df).
Proof.
  intros (Hne & Hnd & Hgaps).
  assert (Hne' : map date df <> []) by (destruct df; [contradiction | discriminate]).
  destruct (date_bounds Hne') as (lo & hi & Hlo & Hhi & Hinlo & Hinhi & Hb).
  exists (map (reindex_at df) (date_range lo hi)).
  assert (Hprep : prepare_time_series df
                  = Ok (map (reindex_at df) (date_range lo hi))).
  { unfold prepare_time_series. rewrite Hlo, Hhi.
    now rewrite NoDup_has_no_duplicates. }
  assert (Hdates : map ts_date (map (reindex_at df) (date_range lo hi))
                   = date_range lo hi).
  { rewrite map_map. rewrite <- (map_id (date_range lo hi)) at 2.
    apply map_ext. intros d. apply ts_date_reindex_at. }
  assert (Hmem : forall d, In d (date_range lo hi) <-> In d (map date df)).
  { intros d. rewrite in_date_range. split; [| apply Hb].
    intros Hd. now apply (Hgaps lo hi d). }
  assert (Hin : forall r, In r (map core (map (reindex_at df) (date_range lo hi)))
                          <-> In r df).
  { intros r. rewrite map_map, in_map_iff. split.
    - intros (d & <- & Hd). apply Hmem in Hd. apply in_map_iff in Hd.
      destruct Hd as (r0 & <- & Hr0). now rewrite reindex_at_present.
    - intros Hr. exists (date r). split; [now apply reindex_at_present |].
      apply Hmem. now apply in_map. }
  split; [exact Hprep |]. split; [| split; [| split]].
  - rewrite Hdates. apply strictly_sorted_NoDup, date_range_sorted.
  - apply NoDup_Permutation; [| now apply NoDup_map_inv in Hnd | exact Hin].
    apply (NoDup_map_inv date). rewrite map_map.
    change (NoDup (map ts_date (map (reindex_at df) (date_range lo hi)))).
    rewrite Hdates. apply strictly_sorted_NoDup, date_range_sorted.
  - intros d. rewrite Hdates. apply Hmem.
  - intros Hsorted.
    assert (Heq : date_range lo hi = map date df)
      by (apply strictly_sorted_ext;
          [apply date_range_sorted | exact Hsorted | exact Hmem]).
    rewrite Heq, !map_map. rewrite <- (map_id df) at 2.
    apply map_ext_in. intros r Hr. now apply reindex_at_present.
Qed.

Lemma dense_fill_identity_witness :
  exists ts, prepare_time_series ten_days = Ok ts /\
             NoDup (map ts_date ts) /\
             Permutation (map core ts) ten_days /\
             (forall d, In d (map ts_date ts) <-> In d (map date ten_days)) /\
             (sorted_by_date ten_days -> map core ts = ten_days).
Proof.
  apply (dense_fill_identity (df := ten_days)).
  split; [discriminate |]. split.
  - apply no_duplicates_NoDup. vm_compute. reflexivity.
  - intros a b d Ha Hb Hd. cbn in Ha, Hb |- *. lia.
Defined.

Local Close Scope Z_scope.
Local Open Scope Q_scope.

Lemma nn_seasonal_not_negative ts d : nonneg_ts ts -> not_negative (seasonal_factor ts d).
Proof. intros. now apply nn_not_negative, nn_seasonal_factor. Qed.

(** C4. On a prepared series of non-negative sales and for every horizon,
    both forecasts are produced and neither holds a negative value.  The
    linear-trend values are the fitted line clamped at zero, whatever the
    sign of the slope; the seasonal values are those clamped values times a
    seasonal factor that is never negative. *)
Theorem forecasts_never_negative (df : list SalesRow) (ts : list TSRow)
        (forecast_days : nat) :
  prepare_time_series df = Ok ts -> nonnegative_sales df ->
  exists fit lin sea,
    linregress (arange 0 (length (tail 90 (sales ts)))) (tail 90 (sales ts)) = Ok fit /\
    linear_trend_forecast ts forecast_days = Ok lin /\
    seasonal_forecast ts forecast_days = Ok sea /\
    length lin = forecast_days /\ length sea = forecast_days /\
    lin = map (fun x => fmaximum (fadd (fmul (fst fit) (Fin x)) (snd fit)) (Fin 0))
              (arange (length (tail 90 (sales ts))) forecast_days) /\
    sea = map (fun '(d, b) => fmul b (seasonal_factor ts d))
              (combine (forecast_dates ts forecast_days) lin) /\
    (forall d, not_negative (seasonal_factor ts d)) /\
    Forall not_negative lin /\ Forall not_negative sea.
Proof.
  intros Hprep Hdf.
  destruct (prepared_series_nonneg Hprep Hdf) as [Hne Hnn].
  destruct (forecasts_nn forecast_days Hnn Hne) as (lin & Hlin & Hsea & Hlen & Hl & Hs).
  assert (Hy : tail 90 (sales ts) <> []).
  { apply tail_nonempty; [| lia]. unfold sales. destruct ts; [contradiction | discriminate]. }
  destruct (linregress_arange_returns Hy) as [fit Hfit].
  exists fit, lin, (map (fun '(d, b) => fmul b (seasonal_factor ts d))
                        (combine (forecast_dates ts forecast_days) lin)).
  split; [exact Hfit |]. split; [exact Hlin |]. split; [exact Hsea |].
  split; [exact Hlen |]. split.
  { rewrite length_map, length_combine. unfold forecast_dates.
    rewrite length_map, length_seq. lia. }
  split.
  { unfold linear_trend_forecast in Hlin. rewrite Hfit in Hlin. cbn [bind] in Hlin.
    injection Hlin as <-. now rewrite map_map. }
  split; [reflexivity |]. split; [intros d; now apply nn_seasonal_not_negative |].
  split; eapply Forall_impl; try eassumption; apply nn_not_negative.
Qed.

Lemma forecasts_never_negative_witness :
  exists fit lin sea,
    linregress (arange 0 (length (tail 90 (sales (prepared falling_sales)))))
               (tail 90 (sales (prepared falling_sales))) = Ok fit /\
    linear_trend_forecast (prepared falling_sales) 3 = Ok lin /\
    seasonal_forecast (prepared falling_sales) 3 = Ok sea /\
    length lin = 3%nat /\ length sea = 3%nat /\
    lin = map (fun x => fmaximum (fadd (fmul (fst fit) (Fin x)) (snd fit)) (Fin 0))
              (arange (length (tail 90 (sales (prepared falling_sales)))) 3) /\
    sea = map (fun '(d, b) => fmul b (seasonal_factor (prepared falling_sales) d))
              (combine (forecast_dates (prepared falling_sales) 3) lin) /\
    (forall d, not_negative (seasonal_factor (prepared falling_sales) d)) /\
    Forall not_negative lin /\ Forall not_negative sea.
Proof.
  apply (@forecasts_never_negative falling_sales (prepared falling_sales) 3).
  - vm_compute. reflexivity.
  - unfold nonnegative_sales, falling_sales, daily. cbn.
    repeat constructor; cbn; discriminate.
Defined.

Lemma mean_nonempty (l : list Q) : l <> [] -> mean l = Fin (Qmean l).
Proof. destruct l; [contradiction | reflexivity]. Qed.





(** C6, evaluated.  Only the 30-day growth is guarded.  For a shop that
    sells on weekends only the weekend-to-weekday ratio is infinite; when
    every daily total is zero that ratio, the monthly variation and every
    seasonal forecast value are NaN. *)
Theorem zero_denominators_propagate :
  (t <- analyze_trends (prepared weekend_shop) ;; Ok (weekend_vs_weekday t)) = Ok PInf /\
  (t <- analyze_trends (prepared free_orders) ;; Ok (weekend_vs_weekday t)) = Ok NaN /\
  (t <- analyze_trends (prepared free_orders) ;; Ok (monthly_variation t)) = Ok NaN /\
  (t <- analyze_trends (prepared free_orders) ;; Ok (last_30d_growth t)) = Ok (Fin 0) /\
  seasonal_forecast (prepared free_orders) 3 = Ok [NaN; NaN; NaN].
Proof. repeat split; vm_compute; reflexivity. Qed.

End ForecastFacts.

(* ===================================================================== *)
(** * Properties of the segmentation pipeline                              *)
(* ===================================================================== *)

Module RFMPipelineFacts.

Import RFM Report ColumnFacts RFMFacts.
Local Open Scope Z_scope.

(** ** Group keys *)

Lemma in_dedup (l : list Z) x : In x (dedup l) <-> In x l.
Proof.
  induction l as [| a l IH]; [reflexivity |]. cbn [dedup].
  destruct (existsb (Z.eqb a) l) eqn:E.
  - rewrite IH. split; [now right |]. intros [<- | H]; [| assumption].
    apply existsb_exists in E. destruct E as (y & Hy & Heq).
    apply Z.eqb_eq in Heq. now subst.
  - cbn [In]. now rewrite IH.
Qed.

Lemma NoDup_dedup (l : list Z) : NoDup (dedup l).
Proof.
  induction l as [| a l IH]; [constructor |]. cbn [dedup].
  destruct (existsb (Z.eqb a) l) eqn:E; [assumption |].
  constructor; [| assumption]. rewrite in_dedup. intros Hin.
  assert (existsb (Z.eqb a) l = true)
    by (apply existsb_exists; exists a; split; [assumption | apply Z.eqb_refl]).
  congruence.
Qed.

Lemma sorted_keys_spec (col : list Z) :
  StronglySorted Z.lt (sorted_keys col) /\
  forall k, In k (sorted_keys col) <-> In k col.
Proof.
  unfold sorted_keys. split.
  - apply sort_strictly_sorted, NoDup_dedup.
  - intros k. split; intros H.
    + apply in_dedup.
      eapply Permutation_in; [symmetry; apply ZSort.Permuted_sort | exact H].
    + eapply Permutation_in; [apply ZSort.Permuted_sort | now apply in_dedup].
Qed.

Lemma customers_of_rfm (df : list Transaction) :
  map rfm_customer (calculate_rfm_metrics df) = group_keys df.
Proof.
  unfold calculate_rfm_metrics. rewrite map_map. cbn [rfm_customer]. apply map_id.
Qed.

(** X1. The RFM frame has one row for each customer of the input and no
    other: its index is strictly increasing, so without repeats, and a
    customer is in it exactly when one of the transactions is theirs. *)
Theorem rfm_one_row_per_customer (df : list Transaction) :
  StronglySorted Z.lt (map rfm_customer (calculate_rfm_metrics df)) /\
  NoDup (map rfm_customer (calculate_rfm_metrics df)) /\
  forall c, In c (map rfm_customer (calculate_rfm_metrics df))
            <-> In c (map customer_id df).
Proof.
  rewrite customers_of_rfm. unfold group_keys.
  destruct (sorted_keys_spec (map customer_id df)) as [Hs Hin].
  split; [exact Hs |]. split; [now apply strictly_sorted_NoDup | exact Hin].
Qed.

(** ** Sums over groups *)

Lemma fold_add_shift (l : list Z) : forall a, fold_left Z.add l a = a + fold_left Z.add l 0.
Proof.
  induction l as [| x l IH]; intros a; cbn [fold_left]; [lia |].
  rewrite (IH (a + x)), (IH (0 + x)). lia.
Qed.

Lemma sum_of_cons x (l : list Z) : sum_of (x :: l) = x + sum_of l.
Proof. unfold sum_of. cbn [fold_left]. rewrite fold_add_shift. lia. Qed.

Lemma sum_of_ones (A : Type) (l : list A) :
  sum_of (map (fun _ => 1) l) = Z.of_nat (length l).
Proof.
  induction l as [| a l IH]; [reflexivity |].
  cbn [map length]. rewrite sum_of_cons, IH. lia.
Qed.

(** The weights of the rows of [l], summed group by group over keys that are
    pairwise distinct and cover [l], add up to the weights of all rows. *)
Lemma sum_by_group (A K : Type) (eqb : K -> K -> bool) (key : A -> K) (w : A -> Z)
      (keys : list K) :
  (forall a b, eqb a b = true <-> a = b) ->
  NoDup keys ->
  forall l,
    (forall t, In t l -> In (key t) keys) ->
    sum_of (map (fun c => sum_of (map w (filter (fun t => eqb (key t) c) l))) keys)
    = sum_of (map w l).
Proof.
  intros Heqb Hnd. induction l as [| t l IH]; intros Hcover.
  - cbn [filter map]. clear. induction keys as [| k keys IH]; [reflexivity |].
    cbn [map]. now rewrite sum_of_cons, IH.
  - cbn [map]. rewrite sum_of_cons, <- IH by (intros; apply Hcover; now right).
    assert (Hin : In (key t) keys) by (apply Hcover; now left).
    clear IH Hcover. induction keys as [| k keys IHk]; [contradiction |].
    cbn [map]. rewrite !sum_of_cons.
    apply NoDup_cons_iff in Hnd. destruct Hnd as [Hk Hnd].
    set (G := fun l c => sum_of (map w (filter (fun t0 => eqb (key t0) c) l))) in *.
    change (G (t :: l) k + sum_of (map (G (t :: l)) keys)
            = w t + (G l k + sum_of (map (G l) keys))).
    assert (Hhead : forall c, G (t :: l) c
                              = (if eqb (key t) c then w t else 0) + G l c).
    { intros c. unfold G. cbn [filter].
      destruct (eqb (key t) c); [cbn [map]; now rewrite sum_of_cons | lia]. }
    rewrite Hhead. destruct (eqb (key t) k) eqn:E.
    + apply Heqb in E. subst k.
      assert (Hrest : map (G (t :: l)) keys = map (G l) keys).
      { apply map_ext_in. intros c Hc. rewrite Hhead.
        destruct (eqb (key t) c) eqn:E'; [| lia].
        apply Heqb in E'. subst c. contradiction. }
      rewrite Hrest. lia.
    + destruct Hin as [-> | Hin].
      { assert (eqb (key t) (key t) = true) by now apply Heqb. congruence. }
      specialize (IHk Hnd Hin).
      change (sum_of (map (G (t :: l)) keys) = w t + sum_of (map (G l) keys)) in IHk.
      lia.
Qed.


Import ForecastFacts.



(** ** [pd.qcut] in general *)

Lemma sort_sorted (x : list Z) : StronglySorted Z.le (ZSort.sort x).
Proof.
  assert (Hs : StronglySorted (fun a b => is_true (a <=? b)) (ZSort.sort x)).
  { apply ZSort.StronglySorted_sort. intros a b c. unfold ZOrder.leb, is_true.
    rewrite !Z.leb_le. lia. }
  induction Hs as [| a l _ IH Hall]; constructor; [assumption |].
  eapply Forall_impl; [| exact Hall]. intros b Hb. now apply Z.leb_le.
Qed.

Lemma sorted_head_least (s : list Z) v :
  StronglySorted Z.le s -> In v s -> nth 0 s 0 <= v.
Proof.
  intros Hs Hv. destruct s as [| a l]; [contradiction |]. cbn [nth].
  apply StronglySorted_inv in Hs. destruct Hs as [_ Hall].
  rewrite Forall_forall in Hall. destruct Hv as [<- | Hv]; [lia | now apply Hall].
Qed.

Lemma sorted_last_greatest (s : list Z) :
  StronglySorted Z.le s -> forall v, In v s -> v <= nth (length s - 1) s 0.
Proof.
  induction 1 as [| a l Hs IH Hall]; intros v Hv; [contradiction |].
  rewrite Forall_forall in Hall.
  destruct l as [| b l'].
  - destruct Hv as [<- | []]. cbn. lia.
  - change (nth (length (a :: b :: l') - 1) (a :: b :: l') 0)
      with (nth (length l') (b :: l') 0).
    assert (Hb : forall w, In w (b :: l') -> w <= nth (length l') (b :: l') 0).
    { intros w Hw. specialize (IH w Hw). cbn [length] in IH.
      now replace (S (length l') - 1)%nat with (length l') in IH by lia. }
    destruct Hv as [<- | Hv]; [| now apply Hb].
    etransitivity; [apply (Hall b); now left | apply Hb; now left].
Qed.

(** The lowest and the highest edge are the least and the greatest value. *)
Lemma quantile5_ends (s : list Z) :
  s <> [] ->
  quantile5 s 0 = 5 * nth 0 s 0 /\ quantile5 s 5 = 5 * nth (length s - 1) s 0.
Proof.
  intros Hs. assert (Hn : (0 < length s)%nat) by (destruct s; [contradiction | cbn; lia]).
  unfold quantile5. split.
  - rewrite Z.mul_0_l. change (0 / 5) with 0. change (0 mod 5) with 0.
    change (Z.to_nat 0) with 0%nat. lia.
  - replace (5 * (Z.of_nat (length s) - 1)) with ((Z.of_nat (length s) - 1) * 5) by lia.
    rewrite Z.div_mul, Z.mod_mul by lia.
    replace (Z.to_nat (Z.of_nat (length s) - 1)) with (length s - 1)%nat by lia. lia.
Qed.

(** The interval number of a value of the column lies in 1..5. *)
Lemma bin_id_in_range (x : list Z) v :
  In v x ->
  (1 <= bin_id (quantile_edges (ZSort.sort x)) (5 * v) <= 5)%nat.
Proof.
  intros Hv.
  pose proof (ZSort.Permuted_sort x) as Hperm.
  pose proof (sort_sorted x) as Hsorted.
  assert (Hvs : In v (ZSort.sort x)) by (eapply Permutation_in; eassumption).
  set (s := ZSort.sort x) in *.
  assert (Hne : s <> []) by (intros E; rewrite E in Hvs; contradiction).
  destruct (quantile5_ends Hne) as [H0 H5].
  pose proof (@sorted_head_least s v Hsorted Hvs) as Hlo.
  pose proof (@sorted_last_greatest s Hsorted v Hvs) as Hhi.
  unfold quantile_edges, bin_id. cbn [map hd]. rewrite H0, H5.
  destruct (Z.eqb_spec (5 * v) (5 * nth 0 s 0)) as [_ | Hneq]; [lia |].
  cbn [searchsorted_left].
  replace (5 * nth 0 s 0 <? 5 * v) with true by (symmetry; apply Z.ltb_lt; lia).
  replace (5 * nth (length s - 1) s 0 <? 5 * v) with false
    by (symmetry; apply Z.ltb_ge; lia).
  repeat match goal with |- context [if ?c then _ else _] => destruct c end; lia.
Qed.

(** Only duplicated edges make [qcut] raise, and then nothing else does. *)
Lemma qcut_cases (x labels : list Z) :
  qcut x labels = Raise BinEdgesNotUnique \/
  (x <> [] /\
   has_duplicates (quantile_edges (ZSort.sort x)) = false /\
   qcut x labels
   = Ok (map (fun v => bin_label (quantile_edges (ZSort.sort x)) labels (5 * v)) x)).
Proof.
  unfold qcut. destruct (ZSort.sort x) as [| z l] eqn:E; [now left |].
  destruct (has_duplicates (quantile_edges (z :: l))) eqn:D; [now left |].
  right. split; [| split; reflexivity].
  intros ->. discriminate E.
Qed.

Lemma score_up_range (x : list Z) v : In v x -> 1 <= score_up x v <= 5.
Proof. intros Hv. unfold score_up. pose proof (@bin_id_in_range x v Hv). lia. Qed.

Lemma bin_label_up (x : list Z) v :
  In v x ->
  bin_label (quantile_edges (ZSort.sort x)) [1; 2; 3; 4; 5] (5 * v)
  = Some (score_up x v).
Proof.
  intros Hv. unfold bin_label, score_up.
  pose proof (@bin_id_in_range x v Hv) as Hr.
  set (id := bin_id _ _) in *. unfold quantile_edges. cbn [map length].
  destruct id as [| [| [| [| [| [| id]]]]]]; try lia; reflexivity.
Qed.

Lemma bin_label_down (x : list Z) v :
  In v x ->
  bin_label (quantile_edges (ZSort.sort x)) [5; 4; 3; 2; 1] (5 * v)
  = Some (score_down x v).
Proof.
  intros Hv. unfold bin_label, score_down, score_up.
  pose proof (@bin_id_in_range x v Hv) as Hr.
  set (id := bin_id _ _) in *. unfold quantile_edges. cbn [map length].
  destruct id as [| [| [| [| [| [| id]]]]]]; try lia; reflexivity.
Qed.

Lemma score_column_up (x : list Z) :
  (c <- qcut x [1; 2; 3; 4; 5] ;; astype_int c) = Raise BinEdgesNotUnique \/
  (c <- qcut x [1; 2; 3; 4; 5] ;; astype_int c) = Ok (map (score_up x) x).
Proof.
  destruct (qcut_cases x [1; 2; 3; 4; 5]) as [-> | (_ & _ & ->)]; [now left |].
  right. cbn [bind]. rewrite <- astype_int_some. f_equal.
  apply map_ext_in. intros v Hv. now apply bin_label_up.
Qed.

Lemma score_column_down (x : list Z) :
  (c <- qcut x [5; 4; 3; 2; 1] ;; astype_int c) = Raise BinEdgesNotUnique \/
  (c <- qcut x [5; 4; 3; 2; 1] ;; astype_int c) = Ok (map (score_down x) x).
Proof.
  destruct (qcut_cases x [5; 4; 3; 2; 1]) as [-> | (_ & _ & ->)]; [now left |].
  right. cbn [bind]. rewrite <- astype_int_some. f_equal.
  apply map_ext_in. intros v Hv. now apply bin_label_down.
Qed.

Lemma astype_int_up (x : list Z) :
  astype_int (map (fun v => bin_label (quantile_edges (ZSort.sort x)) [1; 2; 3; 4; 5] (5 * v)) x)
  = Ok (map (score_up x) x).
Proof.
  rewrite <- astype_int_some. f_equal. apply map_ext_in. intros v Hv.
  now apply bin_label_up.
Qed.



Lemma length_rank_from (all : list Z) : forall rest before,
  length (rank_from before rest all) = length rest.
Proof.
  induction rest as [| v rest IH]; intros before; [reflexivity |].
  cbn [rank_from length]. now rewrite IH.
Qed.

Lemma length_rank_first (x : list Z) : length (rank_first x) = length x.
Proof. apply length_rank_from. Qed.






(** ** Scores follow the order of the metric *)




Lemma count_eq_cons v a l :
  count_eq v (a :: l) = ((if (v =? a)%Z then 1 else 0) + count_eq v l)%nat.
Proof. unfold count_eq. cbn. now destruct (v =? a). Qed.

Lemma count_eq_permutation v (x s : list Z) :
  Permutation x s -> count_eq v x = count_eq v s.
Proof.
  induction 1 as [| b x' s' _ IH | b c l | x' y' z' _ IH1 _ IH2];
    rewrite ?count_eq_cons; [reflexivity | lia | lia | congruence].
Qed.

Lemma count_eq_app v (a b : list Z) :
  count_eq v (a ++ b) = (count_eq v a + count_eq v b)%nat.
Proof.
  induction a as [| y a IH]; [reflexivity |].
  cbn [app]. rewrite !count_eq_cons, IH. lia.
Qed.

(** Everything at most [v] is below any [w] above [v]. *)
Lemma count_le_below (l : list Z) v w :
  v < w -> (count_lt v l + count_eq v l <= count_lt w l)%nat.
Proof.
  intros Hvw. induction l as [| a l IH]; [reflexivity |].
  rewrite !count_lt_cons, count_eq_cons.
  destruct (Z.ltb_spec a v), (Z.eqb_spec v a), (Z.ltb_spec a w); lia.
Qed.

Lemma count_le_length (l : list Z) v :
  (count_lt v l + count_eq v l <= length l)%nat.
Proof.
  induction l as [| a l IH]; [reflexivity |].
  rewrite count_lt_cons, count_eq_cons. cbn [length].
  destruct (Z.ltb_spec a v), (Z.eqb_spec v a); lia.
Qed.

(** The rank of a value lies above the number of smaller values and within
    the number of values not above it; values already seen push it up. *)
Lemma rank_from_bounds (all : list Z) : forall rest before v rho,
  Permutation all (before ++ rest) ->
  In (v, rho) (combine rest (rank_from before rest all)) ->
  Z.of_nat (count_lt v all + count_eq v before) < rho
  <= Z.of_nat (count_lt v all + count_eq v all).
Proof.
  induction rest as [| u rest IH]; intros before v rho Hperm Hin; [contradiction |].
  cbn [rank_from combine] in Hin. destruct Hin as [[= <- <-] | Hin].
  - rewrite (count_eq_permutation u Hperm), count_eq_app, count_eq_cons, Z.eqb_refl.
    lia.
  - assert (Hperm' : Permutation all ((u :: before) ++ rest)).
    { etransitivity; [exact Hperm |]. symmetry. apply Permutation_middle. }
    specialize (IH (u :: before) v rho Hperm' Hin).
    rewrite count_eq_cons in IH. lia.
Qed.

Lemma rank_first_follows_order (x : list Z) v w rho sigma :
  In (v, rho) (combine x (rank_first x)) ->
  In (w, sigma) (combine x (rank_first x)) ->
  v < w -> rho < sigma.
Proof.
  intros Hv Hw Hvw.
  pose proof (@rank_from_bounds x x [] v rho (Permutation_refl _) Hv) as Bv.
  pose proof (@rank_from_bounds x x [] w sigma (Permutation_refl _) Hw) as Bw.
  pose proof (count_le_below x Hvw). lia.
Qed.




(** ** Columns that cannot be binned *)

Lemma nth_constant (c : Z) (s : list Z) i :
  Forall (eq c) s -> (i < length s)%nat -> nth i s 0 = c.
Proof.
  intros Hs Hi. rewrite Forall_forall in Hs. symmetry. apply Hs, nth_In, Hi.
Qed.

Lemma qcut_constant (x labels : list Z) c :
  x <> [] -> Forall (eq c) x -> qcut x labels = Raise BinEdgesNotUnique.
Proof.
  intros Hne Hc.
  pose proof (ZSort.Permuted_sort x) as Hperm.
  assert (Hs : Forall (eq c) (ZSort.sort x)) by (eapply Permutation_Forall; eassumption).
  assert (Hlen : length (ZSort.sort x) = length x)
    by (symmetry; now apply Permutation_length).
  assert (Hn : (0 < length x)%nat) by (destruct x; [contradiction | cbn; lia]).
  unfold qcut. destruct (ZSort.sort x) as [| z l] eqn:E; [reflexivity |].
  set (s := z :: l) in *.
  assert (H0 : quantile5 s 0 = 5 * c).
  { rewrite (proj1 (quantile5_ends (s := s) ltac:(discriminate))).
    rewrite (@nth_constant c s 0%nat Hs) by lia. reflexivity. }
  assert (H1 : quantile5 s 1 = 5 * c).
  { unfold quantile5. rewrite Hlen, Z.mul_1_l.
    set (pos := Z.of_nat (length x) - 1).
    pose proof (Z.div_mod pos 5 ltac:(lia)) as Hdm.
    pose proof (Z.mod_pos_bound pos 5 ltac:(lia)) as Hg.
    assert (Hq : 0 <= pos / 5) by (apply Z.div_pos; lia).
    rewrite (@nth_constant c s (Z.to_nat (pos / 5)) Hs) by lia.
    destruct (Z.eq_dec (pos mod 5) 0) as [Hz | Hnz].
    - rewrite Hz. lia.
    - rewrite (@nth_constant c s (S (Z.to_nat (pos / 5))) Hs) by lia. lia. }
  unfold quantile_edges. cbn [map has_duplicates existsb].
  rewrite H0, H1, Z.eqb_refl. reflexivity.
Qed.

(** X7. Scoring needs spread: create_rfm_scores raises on a frame of a
    single customer, and on any frame in which all customers share one
    Recency or one Monetary value. *)
Theorem constant_metric_blocks_scoring :
  (forall row, create_rfm_scores [row] = Raise BinEdgesNotUnique) /\
  (forall rfm c,
      rfm <> [] ->
      (forall row, In row rfm -> Recency row = c) \/
      (forall row, In row rfm -> Monetary row = c) ->
      create_rfm_scores rfm = Raise BinEdgesNotUnique).
Proof.
  assert (Hgen : forall rfm c,
             rfm <> [] ->
             (forall row, In row rfm -> Recency row = c) \/
             (forall row, In row rfm -> Monetary row = c) ->
             create_rfm_scores rfm = Raise BinEdgesNotUnique).
  { intros rfm c Hne Hconst.
    assert (Hcol : forall (f : RFMRow -> Z),
               (forall row, In row rfm -> f row = c) ->
               forall labels, qcut (map f rfm) labels = Raise BinEdgesNotUnique).
    { intros f Hf labels. apply qcut_constant with (c := c).
      - destruct rfm; [contradiction | discriminate].
      - apply Forall_forall. intros v Hv. apply in_map_iff in Hv.
        destruct Hv as (row & <- & Hrow). symmetry. now apply Hf. }
    unfold create_rfm_scores. destruct Hconst as [HR | HM].
    - now rewrite (Hcol Recency HR).
    - rewrite (Hcol Monetary HM).
      destruct (qcut_cases (map Recency rfm) [5; 4; 3; 2; 1]) as [-> | (_ & _ & ->)];
        [reflexivity |].
      destruct (qcut_cases (rank_first (map Frequency rfm)) [1; 2; 3; 4; 5])
        as [-> | (_ & _ & ->)]; reflexivity. }
  split; [| exact Hgen].
  intros row. apply (Hgen [row] (Recency row)); [discriminate |].
  left. intros r [<- | []]. reflexivity.
Qed.

(** ** Ranks *)

Lemma in_combine_exists (A B : Type) (b : B) : forall (l1 : list A) (l2 : list B),
  length l1 = length l2 -> In b l2 -> exists a, In (a, b) (combine l1 l2).
Proof.
  induction l1 as [| a l1 IH]; intros [| b' l2] Hlen Hin; try contradiction;
    try discriminate.
  cbn [combine]. destruct Hin as [-> | Hin].
  - exists a. now left.
  - injection Hlen as Hlen. destruct (IH l2 Hlen Hin) as (a' & Ha'). exists a'. now right.
Qed.

Lemma rank_from_NoDup (all : list Z) : forall rest before,
  Permutation all (before ++ rest) -> NoDup (rank_from before rest all).
Proof.
  induction rest as [| u rest IH]; intros before Hperm; [constructor |].
  assert (Hperm' : Permutation all ((u :: before) ++ rest)).
  { etransitivity; [exact Hperm |]. symmetry. apply Permutation_middle. }
  cbn [rank_from]. constructor; [| now apply IH].
  intros Hin.
  destruct (in_combine_exists _ rest (rank_from (u :: before) rest all)
              (eq_sym (length_rank_from all rest (u :: before))) Hin) as (w & Hw).
  pose proof (@rank_from_bounds all rest (u :: before) w _ Hperm' Hw) as Bw.
  pose proof (@rank_from_bounds all (u :: rest) before u
                (Z.of_nat (1 + count_lt u all + count_eq u before)) Hperm
                ltac:(cbn [rank_from combine]; now left)) as Bu.
  rewrite count_eq_cons in Bw.
  destruct (Z.lt_total u w) as [Hlt | [Heq | Hlt]].
  - pose proof (count_le_below all Hlt). lia.
  - subst w. rewrite Z.eqb_refl in Bw. lia.
  - pose proof (count_le_below all Hlt).
    destruct (Z.eqb_spec w u); lia.
Qed.

Lemma rank_first_range (x : list Z) rho :
  In rho (rank_first x) -> 1 <= rho <= Z.of_nat (length x).
Proof.
  intros Hin.
  destruct (in_combine_exists _ x (rank_first x) (eq_sym (length_rank_first x)) Hin)
    as (v & Hv).
  pose proof (@rank_from_bounds x x [] v rho (Permutation_refl _) Hv) as B.
  pose proof (count_le_length x v). lia.
Qed.

Lemma rank_first_permutation (x : list Z) :
  Permutation (rank_first x) (map Z.of_nat (seq 1 (length x))).
Proof.
  apply NoDup_Permutation_bis.
  - apply rank_from_NoDup. apply Permutation_refl.
  - now rewrite length_map, length_seq, length_rank_first.
  - intros rho Hin. apply rank_first_range in Hin.
    apply in_map_iff. exists (Z.to_nat rho). split; [lia |]. apply in_seq. lia.
Qed.

Lemma rank_first_ties_by_position (all : list Z) : forall rest before v rho sigma,
  Permutation all (before ++ rest) ->
  (exists i j, (i < j)%nat /\
               nth_error (combine rest (rank_from before rest all)) i = Some (v, rho) /\
               nth_error (combine rest (rank_from before rest all)) j = Some (v, sigma)) ->
  rho < sigma.
Proof.
  induction rest as [| u rest IH]; intros before v rho sigma Hperm (i & j & Hij & Hi & Hj).
  - destruct i; discriminate Hi.
  - assert (Hperm' : Permutation all ((u :: before) ++ rest)).
    { etransitivity; [exact Hperm |]. symmetry. apply Permutation_middle. }
    cbn [rank_from combine] in Hi, Hj. destruct j as [| j]; [lia |].
    cbn [nth_error] in Hj. destruct i as [| i].
    + cbn [nth_error] in Hi. injection Hi as <- <-.
      apply nth_error_In in Hj.
      pose proof (@rank_from_bounds all rest (u :: before) u sigma Hperm' Hj) as B.
      rewrite count_eq_cons, Z.eqb_refl in B. lia.
    + cbn [nth_error] in Hi. apply (IH (u :: before) v rho sigma Hperm').
      exists i, j. repeat split; [lia | assumption | assumption].
Qed.

(** X8. rank(method='first') numbers the rows 1..n: the ranks are a
    permutation of 1..n, a smaller value has a smaller rank, and of two rows
    with the same value the earlier one has the smaller rank. *)
Theorem rank_first_is_stable_ranking (x : list Z) :
  Permutation (rank_first x) (map Z.of_nat (seq 1 (length x))) /\
  (forall v w rho sigma,
      In (v, rho) (combine x (rank_first x)) ->
      In (w, sigma) (combine x (rank_first x)) ->
      v < w -> rho < sigma) /\
  (forall i j v rho sigma,
      (i < j)%nat ->
      nth_error (combine x (rank_first x)) i = Some (v, rho) ->
      nth_error (combine x (rank_first x)) j = Some (v, sigma) ->
      rho < sigma).
Proof.
  split; [apply rank_first_permutation |]. split.
  - intros v w rho sigma. apply rank_first_follows_order.
  - intros i j v rho sigma Hij Hi Hj.
    apply (@rank_first_ties_by_position x x [] v rho sigma (Permutation_refl _)).
    exists i, j. repeat split; assumption.
Qed.

Lemma seq_from_sorted n : forall a, StronglySorted Z.lt (map Z.of_nat (seq a n)).
Proof.
  induction n as [| n IH]; intros a; cbn; constructor; [apply IH |].
  apply Forall_forall. intros z Hz. apply in_map_iff in Hz.
  destruct Hz as (i & <- & Hi). apply in_seq in Hi. lia.
Qed.

Lemma sort_rank_first (x : list Z) :
  ZSort.sort (rank_first x) = map Z.of_nat (seq 1 (length x)).
Proof.
  pose proof (rank_first_permutation x) as Hp.
  apply strictly_sorted_ext.
  - apply sort_strictly_sorted. apply rank_from_NoDup, Permutation_refl.
  - apply seq_from_sorted.
  - intros d. split; intros Hd.
    + eapply Permutation_in; [exact Hp |].
      eapply Permutation_in; [symmetry; apply ZSort.Permuted_sort | exact Hd].
    + eapply Permutation_in; [apply ZSort.Permuted_sort |].
      eapply Permutation_in; [symmetry; exact Hp | exact Hd].
Qed.

Lemma nth_seq_from_one n i :
  (i < n)%nat -> nth i (map Z.of_nat (seq 1 n)) 0 = Z.of_nat i + 1.
Proof.
  intros Hi. change 0 with (Z.of_nat 0). rewrite map_nth, seq_nth by assumption. lia.
Qed.

(** The edges of the ranks 1..n, five times over: [5 + k (n - 1)]. *)
Lemma quantile5_of_ranks n k :
  (1 <= n)%nat -> 0 <= k <= 5 ->
  quantile5 (map Z.of_nat (seq 1 n)) k = 5 + k * (Z.of_nat n - 1).
Proof.
  intros Hn Hk. unfold quantile5. rewrite length_map, length_seq.
  set (pos := k * (Z.of_nat n - 1)).
  assert (Hpos : 0 <= pos <= 5 * (Z.of_nat n - 1)) by (unfold pos; nia).
  pose proof (Z.div_mod pos 5 ltac:(lia)) as Hdm.
  pose proof (Z.mod_pos_bound pos 5 ltac:(lia)) as Hg.
  assert (Hq : 0 <= pos / 5) by (apply Z.div_pos; lia).
  rewrite nth_seq_from_one by lia.
  destruct (Z.eq_dec (pos mod 5) 0) as [Hz | Hnz].
  - rewrite Hz. lia.
  - rewrite nth_seq_from_one by lia. nia.
Qed.

Lemma edges_of_ranks_unique (x : list Z) :
  (2 <= length x)%nat ->
  has_duplicates (quantile_edges (ZSort.sort (rank_first x))) = false.
Proof.
  intros Hn. rewrite sort_rank_first. unfold quantile_edges. cbn [map].
  rewrite !quantile5_of_ranks by lia.
  cbn [has_duplicates existsb]. decide_comparisons. reflexivity.
Qed.

Lemma qcut_unique_edges (x labels : list Z) :
  x <> [] ->
  has_duplicates (quantile_edges (ZSort.sort x)) = false ->
  qcut x labels
  = Ok (map (fun v => bin_label (quantile_edges (ZSort.sort x)) labels (5 * v)) x).
Proof.
  intros Hne Hu. unfold qcut.
  pose proof (ZSort.Permuted_sort x) as Hperm.
  destruct (ZSort.sort x) as [| z l] eqn:E.
  - apply Permutation_sym, Permutation_nil in Hperm. contradiction.
  - now rewrite Hu.
Qed.

(** X9. The frequency score is computed on ranks, so ties never stop it:
    on a column of two or more customers it returns one score per customer,
    each between 1 and 5; on a column of at most one customer pd.qcut
    raises. *)
Theorem frequency_scoring_returns (col : list Z) :
  ((length col <= 1)%nat -> score_frequency col = Raise BinEdgesNotUnique) /\
  ((2 <= length col)%nat ->
   exists fs, score_frequency col = Ok fs /\
              length fs = length col /\
              Forall (fun f => 1 <= f <= 5) fs).
Proof.
  unfold score_frequency. split.
  - intros Hn. pose proof (length_rank_first col) as Hl.
    destruct (rank_first col) as [| rho [| rho' ranks]]; [reflexivity | |].
    + rewrite (@qcut_constant [rho] [1; 2; 3; 4; 5] rho);
        [reflexivity | discriminate | now constructor].
    + cbn [length] in Hl. lia.
  - intros Hn.
    assert (Hok : qcut (rank_first col) [1; 2; 3; 4; 5]
                  = Ok (map (fun v => bin_label (quantile_edges (ZSort.sort (rank_first col)))
                                                [1; 2; 3; 4; 5] (5 * v))
                            (rank_first col))).
    { apply qcut_unique_edges; [| now apply edges_of_ranks_unique].
      intros Hnil. apply (f_equal (@length Z)) in Hnil.
      rewrite length_rank_first in Hnil. cbn in Hnil. lia. }
    { rewrite Hok. cbn [bind]. rewrite astype_int_up.
      eexists. split; [reflexivity |]. split.
      * now rewrite length_map, length_rank_first.
      * apply Forall_forall. intros f Hf. apply in_map_iff in Hf.
        destruct Hf as (rho & <- & Hrho). now apply score_up_range. }
Qed.

(** ** The classifier, segment by segment *)

(** X10. The region of each segment, for scores in 1..5: the conditions
    under which assign_segment returns each of the nine segments it can
    return, in closed form (the order of the if/elif chain resolved). *)
Theorem segment_decision_table r f m :
  in_score_range r -> in_score_range f -> in_score_range m ->
  (assign_segment r f m = Champions <-> 4 <= r /\ 4 <= f /\ 4 <= m) /\
  (assign_segment r f m = LoyalCustomers
   <-> 3 <= r /\ 4 <= f /\ (r = 3 \/ m <= 3)) /\
  (assign_segment r f m = PotentialLoyalists <-> 4 <= r /\ 2 <= f <= 3) /\
  (assign_segment r f m = NewCustomers <-> 4 <= r /\ f = 1) /\
  (assign_segment r f m = Promising <-> r = 3 /\ 2 <= f <= 3) /\
  (assign_segment r f m = NeedAttention <-> r = 2 \/ (r = 3 /\ f = 1)) /\
  (assign_segment r f m = AtRisk <-> r = 1 /\ 4 <= f /\ 4 <= m) /\
  (assign_segment r f m = CannotLoseThem <-> r = 1 /\ f <= 3 /\ 4 <= m) /\
  (assign_segment r f m = Hibernating <-> r = 1 /\ m <= 3).
Proof.
  unfold in_score_range. intros Hr Hf Hm.
  assert (Er : r = 1 \/ r = 2 \/ r = 3 \/ r = 4 \/ r = 5) by lia.
  assert (Ef : f = 1 \/ f = 2 \/ f = 3 \/ f = 4 \/ f = 5) by lia.
  assert (Em : m = 1 \/ m = 2 \/ m = 3 \/ m = 4 \/ m = 5) by lia.
  clear Hr Hf Hm.
  destruct Er as [-> | [-> | [-> | [-> | ->]]]];
    destruct Ef as [-> | [-> | [-> | [-> | ->]]]];
    destruct Em as [-> | [-> | [-> | [-> | ->]]]];
    cbn; repeat split; intros; try discriminate; try reflexivity; lia.
Qed.

Lemma segment_decision_table_witness :
  assign_segment 3 4 5 = LoyalCustomers <-> 3 <= 3 /\ 4 <= 4 /\ (3 = 3 \/ 5 <= 3).
Proof.
  apply (@segment_decision_table 3 4 5); unfold in_score_range; lia.
Defined.

(** ** Segment statistics *)

Lemma segment_eqb_eq a b : segment_eqb a b = true <-> a = b.
Proof.
  unfold segment_eqb. destruct (Segment_eq_dec a b); split; congruence.
Qed.

Lemma segments_by_name_complete seg : In seg segments_by_name.
Proof. destruct seg; cbn; tauto. Qed.

Lemma segments_by_name_sorted :
  StronglySorted (fun a b => String.ltb (segment_name a) (segment_name b) = true)
                 segments_by_name.
Proof. repeat constructor. Qed.

Lemma segments_by_name_NoDup : NoDup segments_by_name.
Proof.
  unfold segments_by_name.
  repeat (constructor; [cbn; intuition discriminate |]). constructor.
Qed.

Lemma StronglySorted_filter (A : Type) (R : A -> A -> Prop) (p : A -> bool) l :
  StronglySorted R l -> StronglySorted R (filter p l).
Proof.
  induction 1 as [| a l _ IH Hall]; cbn; [constructor |].
  destruct (p a); [| assumption]. constructor; [assumption |].
  rewrite Forall_forall in *. intros x Hx. apply filter_In in Hx. now apply Hall.
Qed.

Lemma in_segment_index (segments : list SegmentRow) seg :
  In seg (segment_index segments)
  <-> exists row, In row segments /\ Segment_of row = seg.
Proof.
  unfold segment_index. rewrite filter_In, existsb_exists. split.
  - intros (_ & row & Hrow & E). exists row. split; [assumption |].
    now apply segment_eqb_eq.
  - intros (row & Hrow & E). split; [apply segments_by_name_complete |].
    exists row. split; [assumption | now apply segment_eqb_eq].
Qed.

(** X11. analyze_segment_characteristics splits the cohort: its index
    lists the segments that occur, each once and in the order of their
    names; every listed segment counts at least one customer; the counts
    add up to the number of customers and the Monetary sums to the total
    revenue. *)
Theorem segment_analysis_partitions_cohort (segments : list SegmentRow) :
  let analysis := analyze_segment_characteristics segments in
  StronglySorted (fun a b => String.ltb (segment_name a) (segment_name b) = true)
                 (map stats_segment analysis) /\
  NoDup (map stats_segment analysis) /\
  (forall seg, In seg (map stats_segment analysis)
               <-> exists row, In row segments /\ Segment_of row = seg) /\
  Forall (fun st => 1 <= Customer_Count st) analysis /\
  sum_of (map Customer_Count analysis) = Z.of_nat (length segments) /\
  sum_of (map Monetary_sum analysis) = total_revenue segments.
Proof.
  intros analysis. unfold analysis, analyze_segment_characteristics.
  rewrite !map_map. cbn [stats_segment Customer_Count Monetary_sum].
  rewrite map_id.
  assert (Hnd : NoDup (segment_index segments))
    by (apply NoDup_filter, segments_by_name_NoDup).
  assert (Hcover : forall row, In row segments ->
                               In (Segment_of row) (segment_index segments))
    by (intros row Hrow; apply in_segment_index; now exists row).
  split; [apply StronglySorted_filter, segments_by_name_sorted |].
  split; [exact Hnd |]. split; [apply in_segment_index |]. split; [| split].
  - apply Forall_forall. intros st Hst. apply in_map_iff in Hst.
    destruct Hst as (seg & <- & Hseg). cbn [Customer_Count].
    apply in_segment_index in Hseg. destruct Hseg as (row & Hrow & E).
    assert (Hin : In row (rows_of seg segments))
      by (apply filter_In; split; [assumption | now apply segment_eqb_eq]).
    destruct (rows_of seg segments); [contradiction | cbn [length]; lia].
  - rewrite <- (sum_of_ones segments),
      <- (sum_by_group segment_eqb Segment_of (fun _ => 1) segment_eqb_eq Hnd
            segments Hcover).
    f_equal. apply map_ext. intros seg. unfold rows_of. now rewrite sum_of_ones.
  - unfold total_revenue.
    now rewrite <- (sum_by_group segment_eqb Segment_of monetary_of segment_eqb_eq
                      Hnd segments Hcover).
Qed.

(** ** Recommendations *)

(** X12. The recommendation dictionary has no entry for Need Attention and
    Promising: a customer with scores in 1..5 falls in a segment without a
    recommendation exactly when r = 2, or r = 3 and f <= 3. *)
Theorem segments_without_recommendation r f m :
  in_score_range r -> in_score_range f -> in_score_range m ->
  recommendation_for (segment_name (assign_segment r f m)) = None
  <-> r = 2 \/ (r = 3 /\ f <= 3).
Proof.
  unfold in_score_range. intros Hr Hf Hm.
  assert (Er : r = 1 \/ r = 2 \/ r = 3 \/ r = 4 \/ r = 5) by lia.
  assert (Ef : f = 1 \/ f = 2 \/ f = 3 \/ f = 4 \/ f = 5) by lia.
  assert (Em : m = 1 \/ m = 2 \/ m = 3 \/ m = 4 \/ m = 5) by lia.
  clear Hr Hf Hm.
  destruct Er as [-> | [-> | [-> | [-> | ->]]]];
    destruct Ef as [-> | [-> | [-> | [-> | ->]]]];
    destruct Em as [-> | [-> | [-> | [-> | ->]]]];
    match goal with
    | |- ?L = None <-> _ => let v := eval vm_compute in L in change L with v
    end;
    split; intros; try discriminate; try reflexivity; lia.
Qed.

Lemma segments_without_recommendation_witness :
  recommendation_for (segment_name (assign_segment 3 2 1)) = None
  <-> 3 = 2 \/ (3 = 3 /\ 2 <= 3).
Proof.
  apply (@segments_without_recommendation 3 2 1); unfold in_score_range; lia.
Defined.

(** ** The run *)



(** ** The printed recommendations *)

(** X14. generate_business_recommendations prints a block for a segment
    exactly when the segment has a customer and is none of Need Attention,
    Promising and About to Sleep; the block carries the number of customers
    of the segment and the dictionary entry of its name. *)
Theorem recommendation_blocks (segments : list SegmentRow) (seg : Segment) :
  ((exists n rec,
       In (seg, n, rec)
          (printed_recommendations (analyze_segment_characteristics segments)))
   <-> (exists row, In row segments /\ Segment_of row = seg) /\
       seg <> NeedAttention /\ seg <> Promising /\ seg <> AboutToSleep) /\
  (forall n rec,
      In (seg, n, rec)
         (printed_recommendations (analyze_segment_characteristics segments)) ->
      n = Z.of_nat (length (rows_of seg segments)) /\
      recommendation_for (segment_name seg) = Some rec).
Proof.
  assert (Hin : forall n rec,
             In (seg, n, rec)
                (printed_recommendations (analyze_segment_characteristics segments))
             <-> In seg (segment_index segments) /\
                 n = Z.of_nat (length (rows_of seg segments)) /\
                 recommendation_for (segment_name seg) = Some rec).
  { intros n rec. unfold printed_recommendations, analyze_segment_characteristics.
    rewrite in_flat_map. split.
    - intros (st & Hst & Hblock). apply in_map_iff in Hst.
      destruct Hst as (seg' & <- & Hseg'). cbn [stats_segment Customer_Count] in Hblock.
      destruct (recommendation_for (segment_name seg')) as [rec' |] eqn:E;
        [| contradiction].
      destruct Hblock as [Hb | []]. injection Hb as -> <- ->. now repeat split.
    - intros (Hseg & -> & E). eexists. split.
      + apply in_map_iff. exists seg. split; [reflexivity | exact Hseg].
      + cbn [stats_segment Customer_Count]. rewrite E. now left. }
  split.
  - split.
    + intros (n & rec & H). apply Hin in H. destruct H as (Hseg & _ & E).
      split; [now apply in_segment_index |].
      repeat split; intros ->; discriminate.
    + intros (Hrow & H1 & H2 & H3). apply in_segment_index in Hrow.
      destruct (recommendation_for (segment_name seg)) as [rec |] eqn:E.
      * exists (Z.of_nat (length (rows_of seg segments))), rec. apply Hin.
        now repeat split.
      * destruct seg; try discriminate; congruence.
  - intros n rec H. apply Hin in H. tauto.
Qed.

End RFMPipelineFacts.

(* ===================================================================== *)
(** * Properties of the forecast pipeline                                  *)
(* ===================================================================== *)

Module ForecastPipelineFacts.

Import Forecast ForecastRun ColumnFacts ForecastFacts.
Local Open Scope Z_scope.

(** ** The prepared frame in general *)

Lemma reindex_at_absent (df : list SalesRow) d :
  ~ In d (map date df) -> reindex_at df d = ts_row d 0 0 0.
Proof.
  intros Hd. unfold reindex_at.
  destruct (find (fun r => date r =? d) df) as [r |] eqn:E; [| reflexivity].
  apply find_some in E. destruct E as [Hr He]. apply Z.eqb_eq in He.
  exfalso. apply Hd. rewrite <- He. now apply in_map.
Qed.

Lemma reindex_at_row (df : list SalesRow) r :
  NoDup (map date df) -> In r df ->
  reindex_at df (date r)
  = ts_row (date r) (daily_sales r) (order_count r) (avg_order_value r).
Proof.
  intros Hnd Hr. unfold reindex_at.
  destruct (find (fun r' => date r' =? date r) df) as [r' |] eqn:E.
  - apply find_some in E. destruct E as [Hr' Hd]. apply Z.eqb_eq in Hd.
    now assert (r' = r) as -> by (eapply NoDup_map_injective; eassumption).
  - exfalso. apply (find_none _ _ E) in Hr. now rewrite Z.eqb_refl in Hr.
Qed.

Lemma reindex_at_calendar (df : list SalesRow) d :
  exists s o a, reindex_at df d = ts_row d s o a.
Proof.
  unfold reindex_at. destruct (find _ df) as [r |]; eauto.
Qed.

(** X15. prepare_time_series on any frame.  It raises on an empty frame
    (date_range has no bounds) and on a frame with two rows of one date
    (reindex refuses duplicate labels).  Otherwise the prepared index is
    every calendar day from the first date to the last; the rows of the
    input are kept, the rows of the other days are zero, and month,
    day_of_week and is_weekend are those of the date. *)
Theorem prepare_time_series_outcomes (df : list SalesRow) :
  (df = [] -> prepare_time_series df = Raise EmptyDateRange) /\
  (df <> [] -> ~ NoDup (map date df) ->
   prepare_time_series df = Raise DuplicateLabels) /\
  (df <> [] -> NoDup (map date df) ->
   exists lo hi ts,
     prepare_time_series df = Ok ts /\
     In lo (map date df) /\ In hi (map date df) /\
     (forall d, In d (map date df) -> lo <= d <= hi) /\
     map ts_date ts = date_range lo hi /\
     length ts = Z.to_nat (hi - lo + 1) /\
     (forall r, In r df ->
        In (ts_row (date r) (daily_sales r) (order_count r) (avg_order_value r)) ts) /\
     (forall row, In row ts -> ~ In (ts_date row) (map date df) ->
        row = ts_row (ts_date row) 0 0 0) /\
     (forall row, In row ts ->
        month row = month_of (ts_date row) /\
        day_of_week row = dayofweek (ts_date row) /\
        is_weekend row = (5 <=? dayofweek (ts_date row)))).
Proof.
  split; [intros ->; reflexivity |].
  assert (Hb : df <> [] ->
               exists lo hi, min_date (map date df) = Some lo /\
                             max_date (map date df) = Some hi /\
                             In lo (map date df) /\ In hi (map date df) /\
                             forall d, In d (map date df) -> lo <= d <= hi).
  { intros Hne. apply date_bounds. destruct df; [contradiction | discriminate]. }
  split.
  - intros Hne Hdup. destruct (Hb Hne) as (lo & hi & Hlo & Hhi & _).
    unfold prepare_time_series. rewrite Hlo, Hhi.
    destruct (has_duplicates (map date df)) eqn:E; [reflexivity |].
    exfalso. apply Hdup. now apply no_duplicates_NoDup.
  - intros Hne Hnd. destruct (Hb Hne) as (lo & hi & Hlo & Hhi & Hinlo & Hinhi & Hrange).
    exists lo, hi, (map (reindex_at df) (date_range lo hi)).
    split.
    { unfold prepare_time_series. rewrite Hlo, Hhi.
      now rewrite NoDup_has_no_duplicates. }
    split; [exact Hinlo |]. split; [exact Hinhi |]. split; [exact Hrange |].
    split.
    { rewrite map_map. rewrite <- (map_id (date_range lo hi)) at 2.
      apply map_ext. intros d. apply ts_date_reindex_at. }
    split.
    { unfold date_range. now rewrite !length_map, length_seq. }
    split.
    { intros r Hr. rewrite <- (reindex_at_row df r Hnd Hr). apply in_map.
      apply in_date_range. apply Hrange. now apply in_map. }
    split.
    { intros row Hrow Habs. apply in_map_iff in Hrow. destruct Hrow as (d & <- & _).
      rewrite ts_date_reindex_at in *. now apply reindex_at_absent. }
    intros row Hrow. apply in_map_iff in Hrow. destruct Hrow as (d & <- & _).
    destruct (reindex_at_calendar df d) as (s & o & a & ->). cbn.
    repeat split.
    pose proof (Z.mod_pos_bound (d + 3) 7 ltac:(lia)) as Hm. unfold dayofweek.
    destruct (Z.eqb_spec ((d + 3) mod 7) 5), (Z.eqb_spec ((d + 3) mod 7) 6),
      (Z.leb_spec 5 ((d + 3) mod 7)); cbn; try reflexivity; lia.
Qed.

(** ** Zero fill keeps the totals *)

Local Open Scope Q_scope.

Lemma Qsum_cons a l : Qsum (a :: l) = a + Qsum l.
Proof. reflexivity. Qed.

Lemma ts_sales_reindex_at df d : ts_sales (reindex_at df d) = sales_on df d.
Proof. unfold reindex_at, sales_on. now destruct (find _ df). Qed.

Lemma sales_on_cons r df d :
  sales_on (r :: df) d = if (date r =? d)%Z then daily_sales r else sales_on df d.
Proof. unfold sales_on. cbn [find]. now destruct (date r =? d)%Z. Qed.

Lemma sales_on_absent df d : ~ In d (map date df) -> sales_on df d = 0.
Proof.
  intros Hd. unfold sales_on.
  destruct (find (fun r => (date r =? d)%Z) df) as [r |] eqn:E; [| reflexivity].
  apply find_some in E. destruct E as [Hr He]. apply Z.eqb_eq in He.
  exfalso. apply Hd. rewrite <- He. now apply in_map.
Qed.

Lemma Qsum_update (h : Z -> Q) (k : Z) (a : Q) (L : list Z) :
  NoDup L -> In k L ->
  Qsum (map (fun d => if (k =? d)%Z then a else h d) L) + h k == a + Qsum (map h L).
Proof.
  induction 1 as [| d L Hd Hnd IH]; intros Hk; [contradiction |].
  cbn [map]. rewrite !Qsum_cons. destruct (Z.eqb_spec k d) as [-> | Hne].
  - assert (Hrest : map (fun d0 => if (d =? d0)%Z then a else h d0) L = map h L).
    { apply map_ext_in. intros d0 Hd0.
      destruct (Z.eqb_spec d d0) as [<- | _]; [contradiction | reflexivity]. }
    rewrite Hrest. lra.
  - destruct Hk as [-> | Hk]; [contradiction |]. specialize (IH Hk). lra.
Qed.

Lemma Qsum_sales_on (L : list Z) : NoDup L ->
  forall df, NoDup (map date df) -> (forall r, In r df -> In (date r) L) ->
  Qsum (map (sales_on df) L) == Qsum (map daily_sales df).
Proof.
  intros HL. induction df as [| r df IH]; intros Hnd Hsub.
  - cbn [map Qsum fold_right]. clear. induction L as [| d L IH]; [reflexivity |].
    cbn [map]. rewrite Qsum_cons, IH. unfold sales_on. cbn. lra.
  - cbn [map] in Hnd |- *. apply NoDup_cons_iff in Hnd. destruct Hnd as [Hr Hnd].
    rewrite Qsum_cons.
    rewrite <- (IH Hnd) by (intros; apply Hsub; now right).
    assert (Hext : map (sales_on (r :: df)) L
                   = map (fun d => if (date r =? d)%Z then daily_sales r else sales_on df d) L)
      by (apply map_ext; intros d; apply sales_on_cons).
    rewrite Hext.
    pose proof (@Qsum_update (sales_on df) (date r) (daily_sales r) L HL
                  (Hsub r (or_introl eq_refl))) as Hu.
    rewrite (@sales_on_absent df (date r) Hr) in Hu. lra.
Qed.

(** X16. Filling the missing days adds no sales: the daily_sales column of
    the prepared frame has the same total as that of the input. *)
Theorem zero_fill_keeps_total_sales (df : list SalesRow) (ts : list TSRow) :
  prepare_time_series df = Ok ts ->
  Qsum (sales ts) == Qsum (map daily_sales df).
Proof.
  intros Hprep.
  destruct (prepare_time_series_inv _ Hprep) as (lo & hi & Hlo & Hhi & _ & ->).
  assert (Hnd : NoDup (map date df)).
  { unfold prepare_time_series in Hprep. rewrite Hlo, Hhi in Hprep.
    destruct (has_duplicates (map date df)) eqn:E; [discriminate Hprep |].
    now apply no_duplicates_NoDup. }
  assert (Hne : map date df <> [])
    by (intros E; rewrite E in Hlo; discriminate Hlo).
  destruct (date_bounds Hne) as (lo' & hi' & Hlo' & Hhi' & _ & _ & Hb).
  rewrite Hlo in Hlo'. rewrite Hhi in Hhi'. injection Hlo' as <-. injection Hhi' as <-.
  unfold sales. rewrite map_map.
  rewrite (map_ext _ (sales_on df)) by (intros d; apply ts_sales_reindex_at).
  apply Qsum_sales_on; [apply strictly_sorted_NoDup, date_range_sorted | exact Hnd |].
  intros r Hr. apply in_date_range, Hb. now apply in_map.
Qed.

Lemma zero_fill_keeps_total_sales_witness :
  prepare_time_series weekend_shop = Ok (prepared weekend_shop) /\
  length (prepared weekend_shop) = 8%nat /\
  Qsum (sales (prepared weekend_shop)) == Qsum (map daily_sales weekend_shop).
Proof.
  split; [vm_compute; reflexivity |]. split; [vm_compute; reflexivity |].
  apply (@zero_fill_keeps_total_sales weekend_shop (prepared weekend_shop)).
  vm_compute. reflexivity.
Defined.

(** ** Only the last ninety days are fitted *)

Lemma tail_app (A : Type) n (old l : list A) :
  (n <= length l)%nat -> tail n (old ++ l) = tail n l.
Proof.
  intros Hn. unfold tail. rewrite length_app.
  replace (length old + length l - n)%nat with (length old + (length l - n))%nat by lia.
  rewrite skipn_app. rewrite skipn_all2 by lia.
  replace (length old + (length l - n) - length old)%nat with (length l - n)%nat by lia.
  reflexivity.
Qed.

(** X17. The linear trend reads the last ninety days only: once ninety
    days are there, earlier history in front of them does not change the
    forecast. *)
Theorem older_history_is_ignored (old ts : list TSRow) (forecast_days : nat) :
  (90 <= length ts)%nat ->
  linear_trend_forecast (old ++ ts) forecast_days
  = linear_trend_forecast ts forecast_days.
Proof.
  intros Hn. unfold linear_trend_forecast, sales.
  rewrite map_app, tail_app by now rewrite length_map. reflexivity.
Qed.

Lemma older_history_is_ignored_witness :
  linear_trend_forecast (prepared falling_sales ++ prepared ninety_days) 30
  = linear_trend_forecast (prepared ninety_days) 30.
Proof.
  apply (@older_history_is_ignored (prepared falling_sales) (prepared ninety_days) 30).
  replace (length (prepared ninety_days)) with 90%nat by (vm_compute; reflexivity).
  lia.
Defined.

(** ** The moving average *)

Lemma fold_max_all t : forall x y, In y (x :: t) -> y <= fold_left Qmax t x.
Proof.
  induction t as [| a t IH]; intros x y Hy; cbn [fold_left].
  - destruct Hy as [<- | []]. apply Qle_refl.
  - destruct Hy as [<- | [<- | Hy]].
    + eapply Qle_trans; [apply Q.le_max_l | apply IH; now left].
    + eapply Qle_trans; [apply Q.le_max_r | apply IH; now left].
    + apply IH. now right.
Qed.

Lemma fold_min_all t : forall x y, In y (x :: t) -> fold_left Qmin t x <= y.
Proof.
  induction t as [| a t IH]; intros x y Hy; cbn [fold_left].
  - destruct Hy as [<- | []]. apply Qle_refl.
  - destruct Hy as [<- | [<- | Hy]].
    + eapply Qle_trans; [apply IH; now left | apply Q.le_min_l].
    + eapply Qle_trans; [apply IH; now left | apply Q.le_min_r].
    + apply IH. now right.
Qed.

Lemma Qsum_bounds (lo hi : Q) (l : list Q) :
  (forall y, In y l -> lo <= y <= hi) ->
  lo * Qlen l <= Qsum l <= hi * Qlen l.
Proof.
  unfold Qlen. induction l as [| a l IH]; intros Hb.
  - change (Qsum []) with 0. change (inject_Z (Z.of_nat (length (@nil Q)))) with 0.
    split; lra.
  - rewrite Qsum_cons. cbn [length].
    rewrite Nat2Z.inj_succ, <- Z.add_1_r, inject_Z_plus.
    destruct (Hb a (or_introl eq_refl)) as [H1 H2].
    destruct (IH (fun y Hy => Hb y (or_intror Hy))) as [H3 H4].
    change (inject_Z 1) with 1. split; lra.
Qed.

Lemma Qlen_pos (l : list Q) : l <> [] -> 0 < Qlen l.
Proof.
  intros Hl. unfold Qlen. change 0 with (inject_Z 0). rewrite <- Zlt_Qlt.
  destruct l; [contradiction | cbn [length]; lia].
Qed.

Lemma Qmean_between (l : list Q) :
  l <> [] -> amin l <= Qmean l <= amax l.
Proof.
  intros Hl. pose proof (Qlen_pos Hl) as Hn.
  assert (Hb : forall y, In y l -> amin l <= y <= amax l).
  { destruct l as [| x t]; [contradiction |]. intros y Hy. cbn [amin amax].
    split; [now apply fold_min_all | now apply fold_max_all]. }
  destruct (@Qsum_bounds (amin l) (amax l) l Hb) as [H1 H2]. unfold Qmean. split.
  - apply Qle_shift_div_l; assumption.
  - apply Qle_shift_div_r; assumption.
Qed.

(** X18. simple_moving_average_forecast: the indexing iloc[-1] fails on
    an empty frame; a history shorter than the window gives NaN on every
    forecast day; otherwise every forecast day gets the mean of the last
    [window] days, which lies between the smallest and the largest of
    them. *)
Theorem moving_average_is_flat (ts : list TSRow) (forecast_days window : nat) :
  (ts = [] ->
   simple_moving_average_forecast ts forecast_days window = Failed IndexOutOfBounds) /\
  (ts <> [] -> (length ts < window)%nat ->
   simple_moving_average_forecast ts forecast_days window
   = Done (repeat NaN forecast_days)) /\
  (ts <> [] -> (0 < window <= length ts)%nat ->
   let recent := tail window (sales ts) in
   simple_moving_average_forecast ts forecast_days window
   = Done (repeat (Fin (Qmean recent)) forecast_days) /\
   length recent = window /\
   amin recent <= Qmean recent <= amax recent).
Proof.
  assert (Hlen : length (sales ts) = length ts) by (unfold sales; apply length_map).
  split; [intros ->; reflexivity |]. split.
  - intros Hne Hshort. destruct ts as [| r ts]; [contradiction |].
    unfold simple_moving_average_forecast, last_rolling_mean. rewrite Hlen.
    now replace (length (r :: ts) <? window)%nat with true
      by (symmetry; now apply Nat.ltb_lt).
  - intros Hne Hw recent.
    assert (Hrl : length recent = window)
      by (unfold recent; rewrite length_tail, Hlen; lia).
    assert (Hrn : recent <> [])
      by (intros E; rewrite E in Hrl; cbn in Hrl; lia).
    split; [| split; [exact Hrl | now apply Qmean_between]].
    destruct ts as [| r ts]; [contradiction |].
    unfold simple_moving_average_forecast, last_rolling_mean. rewrite Hlen.
    replace (length (r :: ts) <? window)%nat with false
      by (symmetry; apply Nat.ltb_ge; lia).
    fold recent. now rewrite mean_nonempty.
Qed.

(** ** Least squares on a straight line *)

Lemma Qsum_Forall2 (l1 l2 : list Q) : Forall2 Qeq l1 l2 -> Qsum l1 == Qsum l2.
Proof.
  induction 1 as [| x y l1 l2 Hxy _ IH]; [reflexivity |].
  rewrite !Qsum_cons, Hxy, IH. reflexivity.
Qed.

Lemma Qsum_map_line (a b : Q) (l : list Q) :
  Qsum (map (fun x => a + b * x) l) == a * Qlen l + b * Qsum l.
Proof.
  unfold Qlen. induction l as [| x l IH].
  - change (Qsum (map (fun x => a + b * x) [])) with 0.
    change (Qsum []) with 0. change (inject_Z (Z.of_nat (length (@nil Q)))) with 0.
    ring.
  - cbn [map length]. rewrite !Qsum_cons, IH.
    rewrite Nat2Z.inj_succ, <- Z.add_1_r, inject_Z_plus.
    change (inject_Z 1) with 1. ring.
Qed.

Lemma Qsum_map_scale (b : Q) (f : Q -> Q) (l : list Q) :
  Qsum (map (fun x => b * f x) l) == b * Qsum (map f l).
Proof.
  induction l as [| x l IH].
  - change (Qsum (map (fun x => b * f x) [])) with 0.
    change (Qsum (map f [])) with 0. ring.
  - cbn [map]. rewrite !Qsum_cons, IH. ring.
Qed.

Lemma Forall2_length_Q (l1 l2 : list Q) : Forall2 Qeq l1 l2 -> Qlen l1 = Qlen l2.
Proof.
  intros H. unfold Qlen. now rewrite (Forall2_length H).
Qed.

Lemma zip_with_on_line (a b xm ym : Q) :
  ym == a + b * xm ->
  forall X Y, Forall2 Qeq Y (map (fun x => a + b * x) X) ->
  Forall2 Qeq (zip_with (fun xi yi => (xi - xm) * (yi - ym)) X Y)
              (map (fun x => b * ((x - xm) * (x - xm))) X).
Proof.
  intros Hym. induction X as [| x X IH]; intros Y HY.
  - inversion HY; subst. constructor.
  - cbn [map] in HY. inversion HY as [| y ? Y' ? Hy HY']; subst.
    cbn [zip_with map]. constructor; [| now apply IH].
    rewrite Hy, Hym. ring.
Qed.

Lemma squares_positive n xm :
  (2 <= n)%nat ->
  0 < Qsum (map (fun xi => (xi - xm) * (xi - xm)) (arange 0 n)).
Proof.
  intros Hn. destruct n as [| [| n]]; try lia.
  unfold arange. cbn [seq map]. rewrite !Qsum_cons.
  change (inject_Z (Z.of_nat 0)) with 0. change (inject_Z (Z.of_nat 1)) with 1.
  assert (Hrest : 0 <= Qsum (map (fun xi => (xi - xm) * (xi - xm))
                                 (map (fun i => inject_Z (Z.of_nat i)) (seq 2 n)))).
  { apply Qsum_nonneg. apply Forall_forall. intros q Hq. apply in_map_iff in Hq.
    destruct Hq as (x & <- & _). cbn beta.
    set (t := x - xm). nra. }
  cbn beta. nra.
Qed.

Lemma linregress_nonempty (X Y : list Q) :
  X <> [] -> Y <> [] ->
  linregress X Y
  = if Qeq_bool (amax X) (amin X) && (1 <? length X)%nat then Raise IdenticalX
    else
      let xmean := Qmean X in
      let ymean := Qmean Y in
      let ssxm := Qmean (map (fun xi => (xi - xmean) * (xi - xmean)) X) in
      let ssxym := Qmean (zip_with (fun xi yi => (xi - xmean) * (yi - ymean)) X Y) in
      let slope := fdiv (Fin ssxym) (Fin ssxm) in
      Ok (slope, fsub (Fin ymean) (fmul slope (Fin xmean))).
Proof.
  intros HX HY. destruct X; [contradiction |]. destruct Y; [contradiction |].
  reflexivity.
Qed.

Lemma linregress_on_a_line (n : nat) (Y : list Q) (a b : Q) :
  (2 <= n)%nat ->
  Forall2 Qeq Y (map (fun x => a + b * x) (arange 0 n)) ->
  exists s i, linregress (arange 0 n) Y = Ok (Fin s, Fin i) /\ s == b /\ i == a.
Proof.
  intros Hn HY. set (X := arange 0 n) in *.
  assert (HlenX : length X = n) by apply length_arange.
  assert (HXne : X <> []) by (intros E; rewrite E in HlenX; cbn in HlenX; lia).
  assert (HYne : Y <> []).
  { intros E. apply Forall2_length in HY. rewrite E, length_map, HlenX in HY.
    cbn in HY. lia. }
  pose proof (Qlen_pos HXne) as HN.
  assert (HNY : Qlen Y = Qlen X).
  { rewrite (Forall2_length_Q HY). unfold Qlen. now rewrite length_map. }
  set (xm := Qmean X). set (ym := Qmean Y).
  assert (Hym : ym == a + b * xm).
  { unfold ym, xm, Qmean. rewrite HNY, (Qsum_Forall2 HY), Qsum_map_line.
    field. intros E. rewrite E in HN. now apply Qlt_irrefl in HN. }
  set (ssxm := Qmean (map (fun xi => (xi - xm) * (xi - xm)) X)).
  set (ssxym := Qmean (zip_with (fun xi yi => (xi - xm) * (yi - ym)) X Y)).
  assert (Hpos : 0 < ssxm).
  { unfold ssxm, Qmean. apply Qlt_shift_div_l.
    - unfold Qlen. rewrite length_map. exact HN.
    - rewrite Qmult_0_l. unfold X. now apply squares_positive. }
  assert (Hxy : ssxym == b * ssxm).
  { unfold ssxym, ssxm, Qmean.
    pose proof (@zip_with_on_line a b xm ym Hym X Y HY) as Hz.
    rewrite (Qsum_Forall2 Hz), Qsum_map_scale.
    rewrite (Forall2_length_Q Hz).
    assert (HL : Qlen (map (fun x => b * ((x - xm) * (x - xm))) X)
                 = Qlen (map (fun xi => (xi - xm) * (xi - xm)) X))
      by (unfold Qlen; now rewrite !length_map).
    rewrite HL. field. unfold Qlen. rewrite length_map.
    intros E. unfold Qlen in HN. rewrite E in HN. now apply Qlt_irrefl in HN. }
  assert (Hnz : Qeq_bool ssxm 0 = false).
  { destruct (Qeq_bool ssxm 0) eqn:E; [| reflexivity].
    apply Qeq_bool_iff in E. rewrite E in Hpos. now apply Qlt_irrefl in Hpos. }
  exists (ssxym / ssxm), (ym + - (ssxym / ssxm * xm)). split; [| split].
  - rewrite linregress_nonempty by assumption.
    replace (Qeq_bool (amax X) (amin X) && (1 <? length X)%nat) with false.
    + cbv zeta. fold xm ym. fold ssxm ssxym. cbn [fdiv]. rewrite Hnz. reflexivity.
    + symmetry. apply andb_false_iff. left.
      destruct (Qeq_bool (amax X) (amin X)) eqn:E; [| reflexivity].
      apply Qeq_bool_iff in E. exfalso.
      apply (@arange_spread n); [lia | exact E].
  - rewrite Hxy. field. intros E. rewrite E in Hpos. now apply Qlt_irrefl in Hpos.
  - rewrite Hxy, Hym. field. intros E. rewrite E in Hpos. now apply Qlt_irrefl in Hpos.
Qed.

Lemma fmaximum_zero_Fin (p : Q) :
  fmaximum (Fin p) (Fin 0) = if Qltb p 0 then Fin 0 else Fin p.
Proof. reflexivity. Qed.

Lemma Forall2_map_same (A B C : Type) (R : B -> C -> Prop) (f : A -> B) (g : A -> C)
      (l : list A) :
  (forall x, R (f x) (g x)) -> Forall2 R (map f l) (map g l).
Proof. intros H. induction l; cbn; constructor; auto. Qed.

Lemma clipped_line_value (s i a b x : Q) :
  s == b -> i == a ->
  feq (fmaximum (fadd (fmul (Fin s) (Fin x)) (Fin i)) (Fin 0))
      (Fin (Qmax (a + b * x) 0)).
Proof.
  intros Hs Hi. cbn [fmul fadd]. rewrite fmaximum_zero_Fin.
  destruct (Qltb (s * x + i) 0) eqn:E.
  - apply Qltb_lt in E. cbn [feq]. symmetry. apply Q.max_r. rewrite <- Hs, <- Hi. lra.
  - apply Qltb_ge in E. cbn [feq]. rewrite Q.max_l; rewrite <- Hs, <- Hi; lra.
Qed.

(** X19. When the last ninety days of sales (or all of them, if fewer, but
    at least two) lie on a line a + b*i, the regression recovers it and
    linear_trend_forecast continues it: day n + j gets a + b*(n + j),
    clipped at zero.  Finite values are exact rationals here, so the
    rounding of float64 is left out. *)
Theorem linear_history_is_extrapolated
        (ts : list TSRow) (forecast_days : nat) (a b : Q) :
  (2 <= length ts)%nat ->
  Forall2 Qeq (tail 90 (sales ts))
          (map (fun x => a + b * x) (arange 0 (Nat.min 90 (length ts)))) ->
  exists forecast,
    linear_trend_forecast ts forecast_days = Ok forecast /\
    Forall2 feq forecast
            (map (fun x => Fin (Qmax (a + b * x) 0))
                 (arange (Nat.min 90 (length ts)) forecast_days)).
Proof.
  intros Hn Hline.
  assert (Hlen : length (tail 90 (sales ts)) = Nat.min 90 (length ts))
    by (rewrite length_tail; unfold sales; now rewrite length_map).
  assert (H2 : (2 <= Nat.min 90 (length ts))%nat) by lia.
  destruct (@linregress_on_a_line _ _ a b H2 Hline) as (s & i & E & Hs & Hi).
  unfold linear_trend_forecast. cbv zeta. rewrite Hlen, E. cbn [bind fst snd].
  eexists. split; [reflexivity |]. rewrite map_map.
  apply Forall2_map_same. intros x. now apply clipped_line_value.
Qed.

Lemma linear_history_is_extrapolated_witness :
  exists forecast,
    linear_trend_forecast (prepared falling_sales) 3 = Ok forecast /\
    Forall2 feq forecast
            (map (fun x => Fin (Qmax (40 + (- (10)) * x) 0))
                 (arange (Nat.min 90 (length (prepared falling_sales))) 3)).
Proof.
  apply (@linear_history_is_extrapolated (prepared falling_sales) 3 40 (- (10))).
  - replace (length (prepared falling_sales)) with 5%nat by (vm_compute; reflexivity).
    lia.
  - vm_compute. repeat constructor.
Defined.

(** X20. When the sales of at least two days lie on a line a + b*i,
    analyze_trends reports the slope b, and the direction Increasing
    exactly when b > 0: flat or falling sales are reported as Decreasing.
    Finite values are exact rationals here, so the rounding of float64 is
    left out. *)
Theorem direction_follows_line (ts : list TSRow) (a b : Q) :
  (2 <= length ts)%nat ->
  Forall2 Qeq (sales ts) (map (fun x => a + b * x) (arange 0 (length ts))) ->
  exists trends,
    analyze_trends ts = Ok trends /\
    feq (slope trends) (Fin b) /\
    (direction trends = "Increasing"%string <-> 0 < b) /\
    (direction trends = "Decreasing"%string <-> b <= 0).
Proof.
  intros Hn Hline.
  assert (Hlen : length (sales ts) = length ts) by (unfold sales; apply length_map).
  destruct (@linregress_on_a_line _ _ a b Hn Hline) as (s & i & E & Hs & Hi).
  unfold analyze_trends. cbv zeta. rewrite Hlen, E. cbn [bind fst snd].
  eexists. split; [reflexivity |]. cbn [slope direction fgtb feq].
  split; [exact Hs |].
  destruct (Qltb 0 s) eqn:Es.
  - apply Qltb_lt in Es. rewrite Hs in Es.
    split; split; intros H; try reflexivity; try exact Es; try discriminate.
    exfalso. lra.
  - apply Qltb_ge in Es. rewrite Hs in Es.
    split; split; intros H; try reflexivity; try exact Es; try discriminate.
    exfalso. lra.
Qed.

Lemma direction_follows_line_witness :
  exists trends,
    analyze_trends (prepared falling_sales) = Ok trends /\
    feq (slope trends) (Fin (- (10))) /\
    (direction trends = "Increasing"%string <-> 0 < - (10)) /\
    (direction trends = "Decreasing"%string <-> - (10) <= 0).
Proof.
  apply (@direction_follows_line (prepared falling_sales) 40 (- (10))).
  - replace (length (prepared falling_sales)) with 5%nat by (vm_compute; reflexivity).
    lia.
  - vm_compute. repeat constructor.
Defined.

(** ** A flat history *)

Lemma length_forecast_dates ts days : length (forecast_dates ts days) = days.
Proof. unfold forecast_dates. now rewrite length_map, length_seq. Qed.

Lemma Qsum_constant (c : Q) (l : list Q) :
  Forall (fun q => q == c) l -> Qsum l == c * Qlen l.
Proof.
  unfold Qlen. induction 1 as [| q l Hq _ IH].
  - change (Qsum []) with 0. change (inject_Z (Z.of_nat (length (@nil Q)))) with 0.
    ring.
  - cbn [length]. rewrite Qsum_cons, IH, Hq.
    rewrite Nat2Z.inj_succ, <- Z.add_1_r, inject_Z_plus.
    change (inject_Z 1) with 1. ring.
Qed.

Lemma Qmean_constant (c : Q) (l : list Q) :
  l <> [] -> Forall (fun q => q == c) l -> Qmean l == c.
Proof.
  intros Hne Hc. unfold Qmean. rewrite (Qsum_constant Hc). field.
  pose proof (Qlen_pos Hne) as H. intros E. rewrite E in H.
  now apply Qlt_irrefl in H.
Qed.

Lemma Forall_tail (A : Type) (P : A -> Prop) n (l : list A) :
  Forall P l -> Forall P (tail n l).
Proof.
  unfold tail. intros H. rewrite <- (firstn_skipn (length l - n) l) in H.
  now apply Forall_app in H.
Qed.

Lemma flat_sales (c : Q) (ts : list TSRow) :
  Forall (fun r => ts_sales r == c) ts -> Forall (fun q => q == c) (sales ts).
Proof. unfold sales. intros H. now apply Forall_map. Qed.

Lemma flat_on_a_line (c : Q) (Y X : list Q) :
  length Y = length X -> Forall (fun q => q == c) Y ->
  Forall2 Qeq Y (map (fun x => c + 0 * x) X).
Proof.
  intros Hlen H. revert X Hlen.
  induction H as [| y Y Hy _ IH]; intros [| x X] Hlen; try discriminate; cbn [map].
  - constructor.
  - constructor; [rewrite Hy; ring | apply IH; now injection Hlen].
Qed.

Lemma flat_group_factor (c : Q) (key : TSRow -> Z) (ts : list TSRow) (k : Z) :
  0 < c -> Forall (fun r => ts_sales r == c) ts ->
  exists f,
    series_get (scale_by (group_means key ts) (mean (sales ts))) k (Fin 1) = Fin f /\
    f == 1.
Proof.
  intros Hc Hflat. unfold series_get.
  destruct (find _ _) as [e |] eqn:E; [| exists 1; now split].
  apply find_some in E. destruct E as [He _].
  unfold scale_by in He. apply in_map_iff in He. destruct He as (e0 & <- & He0).
  unfold group_means in He0. apply in_map_iff in He0. destruct He0 as (k0 & <- & Hk0).
  cbn [fst snd].
  apply (proj1 (proj2 (RFMPipelineFacts.sorted_keys_spec (map key ts)) k0)) in Hk0.
  apply in_map_iff in Hk0. destruct Hk0 as (r & Hr & Hin).
  set (g := filter (fun r0 => (key r0 =? k0)%Z) ts).
  assert (Hg : In r g) by (apply filter_In; split; [assumption | now apply Z.eqb_eq]).
  assert (Hgne : map ts_sales g <> []).
  { intros E0. apply map_eq_nil in E0. now rewrite E0 in Hg. }
  assert (Hgc : Forall (fun q => q == c) (map ts_sales g)).
  { apply Forall_map. apply Forall_forall. intros r0 Hr0. apply filter_In in Hr0.
    revert r0 Hr0. intros r0 [Hr0 _]. revert r0 Hr0. now apply Forall_forall. }
  assert (Hts : sales ts <> []).
  { unfold sales. intros E0. apply map_eq_nil in E0. now rewrite E0 in Hin. }
  rewrite (mean_nonempty Hgne), (mean_nonempty Hts). cbn [fdiv].
  pose proof (Qmean_constant Hgne Hgc) as H1.
  pose proof (Qmean_constant Hts (flat_sales Hflat)) as H2.
  assert (Hnz : Qeq_bool (Qmean (sales ts)) 0 = false).
  { destruct (Qeq_bool (Qmean (sales ts)) 0) eqn:E0; [| reflexivity].
    apply Qeq_bool_iff in E0. rewrite E0 in H2. rewrite <- H2 in Hc.
    now apply Qlt_irrefl in Hc. }
  rewrite Hnz. eexists. split; [reflexivity |]. rewrite H1, H2. field.
  intros E0. rewrite E0 in Hc. now apply Qlt_irrefl in Hc.
Qed.

Lemma flat_seasonal_factor (c : Q) (ts : list TSRow) (d : Z) :
  0 < c -> Forall (fun r => ts_sales r == c) ts ->
  exists f, seasonal_factor ts d = Fin f /\ f == 1.
Proof.
  intros Hc Hflat. unfold seasonal_factor. cbv zeta.
  destruct (@flat_group_factor c (fun r => month_of (ts_date r)) ts (month_of d) Hc Hflat)
    as (f1 & -> & H1).
  destruct (@flat_group_factor c (fun r => dayofweek (ts_date r)) ts (dayofweek d) Hc Hflat)
    as (f2 & -> & H2).
  cbn [fadd fdiv]. change (Qeq_bool 2 0) with false. cbv iota.
  eexists. split; [reflexivity |]. rewrite H1, H2. field.
Qed.

Lemma feq_Fin_inv (v : float) (q : Q) : feq v (Fin q) -> exists p, v = Fin p /\ p == q.
Proof. destruct v; cbn; try contradiction. intros H. now exists q0. Qed.

(** X21. On a flat history the three methods agree with it: when every
    day sold the same positive amount c, the moving average (over any
    window the history covers), the linear trend and the seasonal forecast
    all return forecast_days values equal to c.  Finite values are exact
    rationals here, so the rounding of float64 is left out. *)
Theorem flat_history_is_continued
        (ts : list TSRow) (forecast_days window : nat) (c : Q) :
  (2 <= length ts)%nat -> (0 < window <= length ts)%nat -> 0 < c ->
  Forall (fun r => ts_sales r == c) ts ->
  exists ma lin sea,
    simple_moving_average_forecast ts forecast_days window = Done ma /\
    linear_trend_forecast ts forecast_days = Ok lin /\
    seasonal_forecast ts forecast_days = Ok sea /\
    length ma = forecast_days /\ length lin = forecast_days /\
    length sea = forecast_days /\
    Forall (fun v => feq v (Fin c)) ma /\
    Forall (fun v => feq v (Fin c)) lin /\
    Forall (fun v => feq v (Fin c)) sea.
Proof.
  intros Hn Hw Hc Hflat.
  pose proof (flat_sales Hflat) as Hy.
  assert (Hlen : length (sales ts) = length ts) by (unfold sales; apply length_map).
  (* the moving average *)
  assert (Hma : simple_moving_average_forecast ts forecast_days window
                = Done (repeat (Fin (Qmean (tail window (sales ts)))) forecast_days)).
  { destruct ts as [| r ts]; [cbn in Hn; lia |].
    unfold simple_moving_average_forecast, last_rolling_mean. rewrite Hlen.
    replace (length (r :: ts) <? window)%nat with false
      by (symmetry; apply Nat.ltb_ge; lia).
    rewrite mean_nonempty; [reflexivity |].
    apply tail_nonempty; [discriminate | lia]. }
  assert (Hmean : Qmean (tail window (sales ts)) == c).
  { apply Qmean_constant; [| now apply Forall_tail].
    apply tail_nonempty; [| lia]. intros E. rewrite E in Hlen. cbn in Hlen. lia. }
  (* the regression line *)
  assert (Hlt : length (tail 90 (sales ts)) = Nat.min 90 (length ts))
    by (rewrite length_tail; now rewrite Hlen).
  assert (H2 : (2 <= Nat.min 90 (length ts))%nat) by lia.
  assert (Hline : Forall2 Qeq (tail 90 (sales ts))
                          (map (fun x => c + 0 * x) (arange 0 (Nat.min 90 (length ts))))).
  { apply flat_on_a_line; [now rewrite length_arange | now apply Forall_tail]. }
  destruct (@linregress_on_a_line _ _ c 0 H2 Hline) as (s & i & E & Hs & Hi).
  set (lin := map (fun x => fmaximum (fadd (fmul (Fin s) (Fin x)) (Fin i)) (Fin 0))
                  (arange (Nat.min 90 (length ts)) forecast_days)).
  assert (Hlin : linear_trend_forecast ts forecast_days = Ok lin).
  { unfold linear_trend_forecast. cbv zeta. rewrite Hlt, E. cbn [bind fst snd].
    now rewrite map_map. }
  assert (Hlinc : Forall (fun v => feq v (Fin c)) lin).
  { unfold lin. apply Forall_map. apply Forall_forall. intros x _.
    pose proof (@clipped_line_value s i c 0 x Hs Hi) as Hv.
    destruct (@feq_Fin_inv _ _ Hv) as (p & -> & Hp). cbn [feq]. rewrite Hp.
    rewrite Q.max_l; lra. }
  exists (repeat (Fin (Qmean (tail window (sales ts)))) forecast_days), lin,
         (map (fun '(d, b) => fmul b (seasonal_factor ts d))
              (combine (forecast_dates ts forecast_days) lin)).
  assert (Hll : length lin = forecast_days)
    by (unfold lin; now rewrite length_map, length_arange).
  repeat split.
  - exact Hma.
  - exact Hlin.
  - now rewrite seasonal_forecast_factors, Hlin.
  - apply repeat_length.
  - exact Hll.
  - rewrite length_map, length_combine, length_forecast_dates, Hll. lia.
  - apply Forall_forall. intros v Hv. apply repeat_spec in Hv. subst v. exact Hmean.
  - exact Hlinc.
  - apply Forall_map. apply Forall_forall. intros [d b] Hdb.
    apply in_combine_r in Hdb.
    assert (Hb : feq b (Fin c)) by (revert b Hdb; now apply Forall_forall).
    destruct (@feq_Fin_inv _ _ Hb) as (p & -> & Hp).
    destruct (@flat_seasonal_factor c ts d Hc Hflat) as (f & -> & Hf).
    cbn [fmul feq]. rewrite Hp, Hf. ring.
Qed.

Lemma flat_history_is_continued_witness :
  exists ma lin sea,
    simple_moving_average_forecast (prepared ninety_days) 7 30 = Done ma /\
    linear_trend_forecast (prepared ninety_days) 7 = Ok lin /\
    seasonal_forecast (prepared ninety_days) 7 = Ok sea /\
    length ma = 7%nat /\ length lin = 7%nat /\ length sea = 7%nat /\
    Forall (fun v => feq v (Fin 100)) ma /\
    Forall (fun v => feq v (Fin 100)) lin /\
    Forall (fun v => feq v (Fin 100)) sea.
Proof.
  apply (@flat_history_is_continued (prepared ninety_days) 7 30 100).
  - replace (length (prepared ninety_days)) with 90%nat by (vm_compute; reflexivity).
    lia.
  - replace (length (prepared ninety_days)) with 90%nat by (vm_compute; reflexivity).
    lia.
  - reflexivity.
  - vm_compute. repeat constructor.
Defined.

(** ** The recommendations *)

Lemma mean_cases (l : list Q) : mean l = NaN \/ exists q, mean l = Fin q.
Proof. destruct l; [now left | right; eexists; reflexivity]. Qed.

Lemma growth_negative_iff (ts : list TSRow) :
  fltb (growth_30d ts) (Fin 0) = true <->
  exists p r, previous_30d ts = Fin p /\ recent_30d ts = Fin r /\ 0 < p /\ r < p.
Proof.
  unfold growth_30d.
  destruct (mean_cases (iloc_neg 60 30 (sales ts))) as [Ep | [p Ep]];
    fold (previous_30d ts) in Ep; rewrite Ep.
  - cbn. split; [discriminate | intros (p & r & H & _); discriminate].
  - cbn [fgtb]. destruct (Qltb 0 p) eqn:Hp.
    + apply Qltb_lt in Hp.
      assert (Hnz : Qeq_bool p 0 = false).
      { destruct (Qeq_bool p 0) eqn:E; [| reflexivity].
        apply Qeq_bool_iff in E. rewrite E in Hp. now apply Qlt_irrefl in Hp. }
      destruct (mean_cases (tail 30 (sales ts))) as [Er | [r Er]];
        fold (recent_30d ts) in Er; rewrite Er.
      * cbn. split; [discriminate | intros (p' & r & _ & H & _); discriminate].
      * cbn [fsub fneg fadd fdiv]. rewrite Hnz. cbn [fmul fltb fgtb].
        rewrite Qltb_lt. split.
        -- intros H. exists p, r. repeat split; try assumption.
           assert (Hd : (r + - p) / p < 0).
           { destruct (Qlt_le_dec ((r + - p) / p) 0) as [Hlt | Hge]; [exact Hlt |].
             exfalso. nra. }
           destruct (Qlt_le_dec r p) as [Hlt | Hge]; [exact Hlt | exfalso].
           assert (0 <= (r + - p) / p) by (apply Qle_shift_div_l; lra). lra.
        -- intros (p' & r' & Hp' & Hr' & _ & Hlt).
           injection Hp' as <-. injection Hr' as <-.
           assert ((r + - p) / p < 0).
           { apply Qlt_shift_div_r; lra. }
           lra.
    + apply Qltb_ge in Hp. cbn. split; [discriminate |].
      intros (p' & r & Hp' & _ & Hpos & _). injection Hp' as <-. lra.
Qed.

(** X22. generate_business_insights gives the recommendations on a sales
    decline (three, added together; the first is followed here) exactly
    when the mean of the preceding thirty days is a positive number and the
    mean of the last thirty days is below it. *)
Theorem decline_advice_iff (ts : list TSRow) (trends : Trends) :
  analyze_trends ts = Ok trends ->
  (In "Investigate factors causing sales decline"%string
      (insight_recommendations trends)
   <-> exists p r, previous_30d ts = Fin p /\ recent_30d ts = Fin r /\
                   0 < p /\ r < p).
Proof.
  intros Hrun. unfold analyze_trends in Hrun. cbv zeta in Hrun.
  destruct (linregress _ _) as [fit | e]; [| discriminate].
  cbn [bind] in Hrun. injection Hrun as <-.
  rewrite <- growth_negative_iff.
  unfold insight_recommendations. cbn [last_30d_growth monthly_variation weekend_vs_weekday].
  destruct (fltb (growth_30d ts) (Fin 0)).
  - split; [reflexivity | intros _; now left].
  - split; [| discriminate]. intros H. exfalso.
    destruct (fgtb (monthly_variation_of ts) (Fin 30));
      destruct (fgtb (weekend_vs_weekday_of ts) (Fin (12 # 10)));
      destruct (fltb (weekend_vs_weekday_of ts) (Fin (8 # 10)));
      cbn in H; repeat (destruct H as [H | H]; [discriminate |]); exact H.
Qed.

Lemma decline_advice_iff_witness :
  exists trends,
    analyze_trends (prepared halved_sales) = Ok trends /\
    (In "Investigate factors causing sales decline"%string
        (insight_recommendations trends)
     <-> exists p r, previous_30d (prepared halved_sales) = Fin p /\
                     recent_30d (prepared halved_sales) = Fin r /\
                     0 < p /\ r < p).
Proof.
  eexists. split; [vm_compute; reflexivity |].
  apply (@decline_advice_iff (prepared halved_sales)). vm_compute. reflexivity.
Defined.

(** ** The complete run *)




End ForecastPipelineFacts.
